(** * CyberLama: the streaming response processor of [cyberlama.py]

    A shallow embedding of the parts of [src/cyberlama.py] that parse a
    streamed chat completion: the raw (fallback) fence scanner with its block
    capture, the post-hoc block extraction of the Rich path, the per-line
    syntax highlighter, and the [:copy] / [:diff] command handlers that read
    the captured blocks.

    Python [str] values are modelled as [string], kept in their UTF-8
    encoding, and so are the [bytes] of a response line; Python lists as
    [list].  Terminal output ([print]) has no influence on the state that the
    statements below talk about and is left out of the state. *)

From Stdlib Require Import Strings.String Strings.Ascii Lists.List Bool.Bool.
From Stdlib Require Import Arith.PeanoNat ZArith.ZArith micromega.Lia.
Import ListNotations.

(** [xs.append(x)] on a Python list. *)
Definition snoc {A : Type} (xs : list A) (x : A) : list A := xs ++ [x].

Local Open Scope list_scope.
Local Open Scope string_scope.

(* ================================================================== *)
(** ** Characters and small string helpers *)

Definition nl : ascii := "010"%char.
Definition tick : ascii := "`"%char.
Definition esc : ascii := "027"%char.
Definition dquote : ascii := "034"%char.

(** ["\n"] as a one-character string. *)
Definition NL : string := String nl "".

(** The fence marker, three backticks. *)
Definition FENCE : string := "```".

(** Python truthiness of a [str]: [if s:] *)
Definition nonempty (s : string) : bool :=
  match s with "" => false | String _ _ => true end.

(** [c in s] for a single character [c]. *)
Fixpoint contains_char (c : ascii) (s : string) : bool :=
  match s with
  | "" => false
  | String d r => Ascii.eqb d c || contains_char c r
  end.

(** [s.split(c, 1)] for a single-character separator: the text before the
    first [c] and the text after it, or [None] when [c] does not occur (Python
    then returns the one-element list [[s]]). *)
Fixpoint split_once (c : ascii) (s : string) : option (string * string) :=
  match s with
  | "" => None
  | String d r =>
      if Ascii.eqb d c then Some ("", r)
      else match split_once c r with
           | Some (a, b) => Some (String d a, b)
           | None => None
           end
  end.

(** Prepend a character to the first element of a non-empty list of parts. *)
Definition cons_head (c : ascii) (ps : list string) : list string :=
  match ps with
  | [] => [String c ""]
  | p :: ps' => String c p :: ps'
  end.

(** [s.split("```")]: non-overlapping occurrences of the marker, found left
    to right; always at least one part. *)
Fixpoint split_fence (s : string) : list string :=
  match s with
  | "" => [""]
  | String c1 r1 =>
      match r1 with
      | String c2 (String c3 r3) =>
          if Ascii.eqb c1 tick && Ascii.eqb c2 tick && Ascii.eqb c3 tick
          then "" :: split_fence r3
          else cons_head c1 (split_fence r1)
      | _ => cons_head c1 (split_fence r1)
      end
  end.

(** [s] minus the prefix [p], when [s] starts with [p]. *)
Fixpoint strip_prefix (p s : string) : option string :=
  match p, s with
  | "", _ => Some s
  | String a p', String b s' => if Ascii.eqb a b then strip_prefix p' s' else None
  | String _ _, "" => None
  end.

(** ["".join(xs)] *)
Definition join (xs : list string) : string := String.concat "" xs.

(* ================================================================== *)
(** ** The raw streaming path, one content delta at a time
    ([stream_completion], lines 356-419) *)

Module Raw.

(** Local variables of the raw loop together with the global [CODE_BLOCKS]. *)
Record state := mkState {
  full_content : string;
  in_code_block : bool;
  buffer : string;
  current_block_content : list string;
  CODE_BLOCKS : list string
}.

(** State on entry of the loop (lines 313-318 and 356-357). *)
Definition init : state := mkState "" false "" [] [].

(** The inner [while "\n" in buffer] loop (lines 400-403).  Each round removes
    one newline from [buffer], so [String.length buffer] rounds are always
    enough; see [drain_exits]. *)
Fixpoint drain (fuel : nat) (buf : string) (cur : list string)
  : string * list string :=
  match fuel with
  | O => (buf, cur)
  | S f =>
      match split_once nl buf with
      | Some (line_content, rest) => drain f rest (snoc cur (line_content ++ NL))
      | None => (buf, cur)
      end
  end.

(** Lines 376-394: what happens at a marker ([i > 0]). *)
Definition toggle (st : state) : state :=
  if in_code_block st then
    let cur := if nonempty (buffer st)
               then snoc (current_block_content st) (buffer st)
               else current_block_content st in
    mkState (full_content st) false "" [] (snoc (CODE_BLOCKS st) (join cur))
  else
    mkState (full_content st) true (buffer st) (current_block_content st)
            (CODE_BLOCKS st).

(** Lines 396-405: what happens with the text of one part. *)
Definition feed (st : state) (part : string) : state :=
  if nonempty part then
    if in_code_block st then
      let b := buffer st ++ part in
      let '(b', cur') := drain (String.length b) b (current_block_content st) in
      mkState (full_content st) true b' cur' (CODE_BLOCKS st)
    else st
  else st.

(** The [for i, part in enumerate(parts)] loop. *)
Definition process_parts (st : state) (parts : list string) : state :=
  match parts with
  | [] => st
  | p :: ps => fold_left (fun s q => feed (toggle s) q) ps (feed st p)
  end.

(** Lines 370-405 for one content delta. *)
Definition on_delta (st : state) (delta : string) : state :=
  if nonempty delta then
    process_parts
      (mkState (full_content st ++ delta) (in_code_block st) (buffer st)
               (current_block_content st) (CODE_BLOCKS st))
      (split_fence delta)
  else st.

(** Lines 415-419: the flush after the loop. *)
Definition flush (st : state) : state :=
  if nonempty (buffer st) && in_code_block st then
    let cur := snoc (current_block_content st) (buffer st) in
    mkState (full_content st) (in_code_block st) (buffer st) cur
            (snoc (CODE_BLOCKS st) (join cur))
  else st.

(** The raw path over a whole sequence of content deltas. *)
Definition run (deltas : list string) : state :=
  flush (fold_left on_delta deltas init).

End Raw.

(* ================================================================== *)
(** ** Block extraction of the Rich path (lines 349-350) *)

(** The first occurrence of the marker: the text before it and the text after
    it. *)
Fixpoint find_fence (s : string) : option (string * string) :=
  match s with
  | "" => None
  | String c1 r1 =>
      let later := match find_fence r1 with
                   | Some (a, b) => Some (String c1 a, b)
                   | None => None
                   end in
      match r1 with
      | String c2 (String c3 r3) =>
          if Ascii.eqb c1 tick && Ascii.eqb c2 tick && Ascii.eqb c3 tick
          then Some ("", r3)
          else later
      | _ => later
      end
  end.

(** [re.findall(r"```.*?\n(.*?)```", s, re.DOTALL)].  With [DOTALL] a dot
    matches every character, and both quantifiers are lazy: a match starts at
    the first marker, runs to the first newline after it, and its group is the
    text from there up to the next marker.  When the attempt at the first
    marker fails (no newline after it, or no marker after that newline) no
    later start can succeed either, so the search ends.  Every match consumes
    at least four characters, so [String.length s] rounds are enough. *)
Fixpoint findall_blocks (fuel : nat) (s : string) : list string :=
  match fuel with
  | O => []
  | S f =>
      match find_fence s with
      | None => []
      | Some (_, after_open) =>
          match split_once nl after_open with
          | None => []
          | Some (_, body_on) =>
              match find_fence body_on with
              | None => []
              | Some (body, rest) => body :: findall_blocks f rest
              end
          end
      end
  end.

Definition block_matches (full_content : string) : list string :=
  findall_blocks (String.length full_content) full_content.

(* ================================================================== *)
(** ** Decoded chunks: the values [json.loads] returns *)

#[warnings="-register-all"]
Inductive json :=
| JNull
| JBool (b : bool)
| JNum (n : Z)
| JStr (s : string)
| JArr (xs : list json)
| JObj (kvs : list (string * json)).

(** The exceptions the line and chunk handling can raise. *)
Inductive exn :=
| KeyError | IndexError | TypeError | AttributeError | UnicodeDecodeError.

(** A computation that either yields a value or raises. *)
Definition raising (A : Type) : Type := A + exn.
Definition ret {A} (a : A) : raising A := inl a.
Definition throw {A} (e : exn) : raising A := inr e.
Definition bind {A B} (m : raising A) (k : A -> raising B) : raising B :=
  match m with inl a => k a | inr e => inr e end.
Notation "x <- m ;; k" := (bind m (fun x => k))
  (at level 61, m at next level, right associativity).

(** Lookup in a decoded object. *)
Fixpoint lookup (k : string) (kvs : list (string * json)) : option json :=
  match kvs with
  | [] => None
  | (k', v) :: r => if String.eqb k' k then Some v else lookup k r
  end.

(** [v[key]] for a string key. *)
Definition subscript (v : json) (key : string) : raising json :=
  match v with
  | JObj kvs => match lookup key kvs with Some x => ret x | None => throw KeyError end
  | _ => throw TypeError
  end.

(** [v[0]] *)
Definition item0 (v : json) : raising json :=
  match v with
  | JArr (x :: _) => ret x
  | JArr [] => throw IndexError
  | JStr (String c _) => ret (JStr (String c ""))
  | JStr "" => throw IndexError
  | JObj _ => throw KeyError
  | _ => throw TypeError
  end.

(** [v.get(key, default)] *)
Definition get (v : json) (key : string) (default : json) : raising json :=
  match v with
  | JObj kvs => match lookup key kvs with Some x => ret x | None => ret default end
  | _ => throw AttributeError
  end.

(** Python truthiness of a decoded value. *)
Definition truthy (v : json) : bool :=
  match v with
  | JNull => false
  | JBool b => b
  | JNum n => negb (Z.eqb n 0)
  | JStr s => nonempty s
  | JArr xs => match xs with [] => false | _ => true end
  | JObj kvs => match kvs with [] => false | _ => true end
  end.

(** [chunk["choices"][0].get("delta", {}).get("content", "")] *)
Definition delta_of (chunk : json) : raising json :=
  choices <- subscript chunk "choices" ;;
  c0 <- item0 choices ;;
  d <- get c0 "delta" (JObj []) ;;
  get d "content" (JStr "").

(** [chunk["choices"][0].get("finish_reason", "")] *)
Definition finish_of (chunk : json) : raising json :=
  choices <- subscript chunk "choices" ;;
  c0 <- item0 choices ;;
  get c0 "finish_reason" (JStr "").

(** [full_content += delta] for a truthy [delta]: only a [str] can be added
    to a [str]. *)
Definition add_text (full_content : string) (delta : json) : raising string :=
  match delta with
  | JStr d => ret (full_content ++ d)
  | _ => throw TypeError
  end.

(** The usage counters and the finish reason, module-level variables. *)
Record meters := mkMeters {
  last_prompt_tokens : json;
  last_completion_tokens : json;
  last_finish_reason : json
}.

(** Lines 339-341 (and 407-409): the assignments run one after the other, so
    a raise in the second keeps the first. *)
Definition update_usage (chunk : json) (m : meters) : meters * option exn :=
  match chunk with
  | JObj kvs =>
      match lookup "usage" kvs with
      | None => (m, None)
      | Some u =>
          match get u "prompt_tokens" (JNum 0) with
          | inr e => (m, Some e)
          | inl p =>
              let m1 := mkMeters p (last_completion_tokens m) (last_finish_reason m) in
              match get u "completion_tokens" (JNum 0) with
              | inr e => (m1, Some e)
              | inl c => (mkMeters p c (last_finish_reason m), None)
              end
          end
      end
  | _ => (m, Some TypeError)
  end.

(** Line 342 (and 411). *)
Definition update_finish (chunk : json) (m : meters) : meters * option exn :=
  match finish_of chunk with
  | inl f => (mkMeters (last_prompt_tokens m) (last_completion_tokens m) f, None)
  | inr e => (m, Some e)
  end.

(** Both updates in sequence. *)
Definition update_meters (chunk : json) (m : meters) : meters * option exn :=
  match update_usage chunk m with
  | (m1, Some e) => (m1, Some e)
  | (m1, None) => update_finish chunk m1
  end.

(* ================================================================== *)
(** ** [stream_completion] over the lines of a response *)

(** [s[n:]] *)
Fixpoint skip (n : nat) (s : string) : string :=
  match n, s with
  | S k, String _ r => skip k r
  | _, _ => s
  end.

(** [line.decode('utf-8')] (lines 329 and 363).  The lines of the response
    are bytes, and text is kept in its UTF-8 encoding throughout: decoding
    checks that the bytes are well-formed UTF-8 and hands them on as they are;
    [None] stands for [UnicodeDecodeError].  The strict decoder accepts the
    byte sequences of the Unicode standard only: no overlong form, no
    surrogate, nothing above U+10FFFF. *)
Definition byte_in (lo hi : N) (c : ascii) : bool :=
  (lo <=? N_of_ascii c)%N && (N_of_ascii c <=? hi)%N.

(** A continuation byte, [80..BF]. *)
Definition continuation (c : ascii) : bool := byte_in 128 191 c.

(** The byte allowed after the lead byte [c] of a sequence of three. *)
Definition second_of_three (c c1 : ascii) : bool :=
  if byte_in 224 224 c then byte_in 160 191 c1
  else if byte_in 237 237 c then byte_in 128 159 c1
  else continuation c1.

(** The byte allowed after the lead byte [c] of a sequence of four. *)
Definition second_of_four (c c1 : ascii) : bool :=
  if byte_in 240 240 c then byte_in 144 191 c1
  else if byte_in 244 244 c then byte_in 128 143 c1
  else continuation c1.

Fixpoint well_formed (bytes : string) : bool :=
  match bytes with
  | "" => true
  | String c r =>
      if byte_in 0 127 c then well_formed r
      else if byte_in 194 223 c then
        match r with
        | String c1 r1 => continuation c1 && well_formed r1
        | _ => false
        end
      else if byte_in 224 239 c then
        match r with
        | String c1 (String c2 r2) =>
            second_of_three c c1 && continuation c2 && well_formed r2
        | _ => false
        end
      else if byte_in 240 244 c then
        match r with
        | String c1 (String c2 (String c3 r3)) =>
            second_of_four c c1 && continuation c2 && continuation c3
            && well_formed r3
        | _ => false
        end
      else false
  end.

Definition decode (line : string) : option string :=
  if well_formed line then Some line else None.

(** How one round of a [for] loop ends. *)
Inductive step (A : Type) :=
| Continue (a : A)
| Break (a : A)
| Abort (e : exn) (a : A).
Arguments Continue {A} a.
Arguments Break {A} a.
Arguments Abort {A} e a.

(** A [for] loop over the lines; the result carries the exception that left
    the loop, if any. *)
Fixpoint loop {A : Type} (body : A -> string -> step A) (st : A)
  (lines : list string) : A * option exn :=
  match lines with
  | [] => (st, None)
  | l :: r =>
      match body st l with
      | Continue s => loop body s r
      | Break s => (s, None)
      | Abort e s => (s, Some e)
      end
  end.

(** What came back from [requests.post] / [raise_for_status]. *)
Inductive response :=
| Timeout
| ConnectionError
| RequestException
| Streaming (lines : list string).

(** How a call of [stream_completion] ends. *)
Inductive outcome :=
| Returned (content : string) (finish_reason : json)
| Raised (e : exn).

(** The module-level variables [stream_completion] writes. *)
Record globals := mkGlobals {
  CODE_BLOCKS : list string;
  counters : meters
}.

Section Stream.

(** [json.loads] on the payload of a line: [None] stands for
    [json.JSONDecodeError]. *)
Variable loads : string -> option json.

(** Lines 328-344, one line of the response in the Rich path. *)
Definition rich_line (st : string * meters) (line : string)
  : step (string * meters) :=
  let '(fc, m) := st in
  if negb (nonempty line) then Continue st
  else
    match decode line with
    | None => Abort UnicodeDecodeError st
    | Some line =>
        if String.prefix "data: " line then
          if String.eqb line "data: [DONE]" then Break st
          else
            match loads (skip 6 line) with
            | None => Continue st
            | Some chunk =>
                match delta_of chunk with
                | inr e => Abort e st
                | inl delta =>
                    match (if truthy delta then add_text fc delta else ret fc) with
                    | inr e => Abort e st
                    | inl fc' =>
                        match update_meters chunk m with
                        | (m', Some e) => Abort e (fc', m')
                        | (m', None) => Continue (fc', m')
                        end
                    end
                end
            end
        else Continue st
    end.

(** Lines 361-413, one line of the response in the raw path. *)
Definition raw_line (st : Raw.state * meters) (line : string)
  : step (Raw.state * meters) :=
  let '(rs, m) := st in
  if negb (nonempty line) then Continue st
  else
    match decode line with
    | None => Abort UnicodeDecodeError st
    | Some line =>
        if String.prefix "data: " line then
          if String.eqb line "data: [DONE]" then Break st
          else
            match loads (skip 6 line) with
            | None => Continue st
            | Some chunk =>
                match delta_of chunk with
                | inr e => Abort e st
                | inl delta =>
                    if truthy delta then
                      match delta with
                      | JStr d =>
                          let rs' := Raw.on_delta rs d in
                          match update_meters chunk m with
                          | (m', Some e) => Abort e (rs', m')
                          | (m', None) => Continue (rs', m')
                          end
                      | _ => Abort TypeError st
                      end
                    else Continue st
                end
            end
        else Continue st
    end.

(** [stream_completion]; [rich] is [RICH_AVAILABLE and RENDER_MARKDOWN].
    A raise inside the Rich loop leaves the function; the raw loop sits in a
    [try] whose handler returns the text so far with the reason ["error"]
    (a line that does not decode raises outside the per-line [try], in both
    paths).
    The clock reading [last_latency] is left out. *)
Definition stream_completion (rich : bool) (g : globals) (r : response)
  : globals * outcome :=
  match r with
  | Streaming lines =>
      if rich then
        match loop rich_line ("", counters g) lines with
        | ((fc, m), Some e) => (mkGlobals [] m, Raised e)
        | ((fc, m), None) =>
            (mkGlobals (block_matches fc) m, Returned fc (last_finish_reason m))
        end
      else
        match loop raw_line (Raw.init, counters g) lines with
        | ((rs, m), Some e) =>
            (mkGlobals (Raw.CODE_BLOCKS rs) m,
             Returned (Raw.full_content rs) (JStr "error"))
        | ((rs, m), None) =>
            let rs' := Raw.flush rs in
            (mkGlobals (Raw.CODE_BLOCKS rs') m,
             Returned (Raw.full_content rs') (last_finish_reason m))
        end
  | _ => (g, Returned "" (JStr "error"))
  end.

End Stream.

(* ================================================================== *)
(** ** The [:diff] and [:copy] branches of [handle_command] *)

Module Cmd.

(** The module-level variables of the session. *)
Record session := mkSession {
  SEC_MODE : string;
  PHASE : string;
  DEPTH : string;
  FORMAT : string;
  ENGAGEMENT : string;
  MEMORY : list string;
  messages : list (string * string);
  CODE_BLOCKS : list string
}.

(** What the branches read from outside the program. *)
Record world := mkWorld {
  path_exists : string -> bool;       (* [fpath.exists()] *)
  read_text : string -> option string; (* [fpath.read_text()], [None]: it raised *)
  darwin : bool;                       (* [sys.platform == "darwin"] *)
  pbcopy_ok : bool                     (* [subprocess.run(..., check=True)] passed *)
}.

(** What a branch prints or does. *)
Inductive report :=
| FileNotFound (fpath : string)
| NoBlocksToDiff
| DiffShown (fpath : string) (file_text : string) (block_no : Z) (block : string)
| DiffError
| BlockNotFound (block_no : Z)
| NoBlocksFound
| Copied (block_no : Z) (content : string)
| ClipboardUnsupported
| CopyNotFound (arg : string) (available : nat)
| CopyUsage
| UnknownCommand (cmd : string).

(** How the call ends: [return True] after a report, or an exception that
    leaves [handle_command]. *)
Inductive result :=
| Handled (r : report)
| ValueError
| CalledProcessError.

(** [xs[i]] for [0 <= i < len(xs)]. *)
Definition item (xs : list string) (i : Z) : string :=
  nth (Z.to_nat i) xs "".

(** [0 <= i < len(xs)] *)
Definition in_range (xs : list string) (i : Z) : bool :=
  (0 <=? i)%Z && (i <? Z.of_nat (List.length xs))%Z.

Section Commands.

(** Python's [int] on a command argument; [None] stands for [ValueError]. *)
Variable int : string -> option Z.

(** Line 438 and line 527: the index when no number is given. *)
Definition last_idx (s : session) : Z := Z.of_nat (List.length (CODE_BLOCKS s)) - 1.

(** Lines 435-474. *)
Definition cmd_diff (w : world) (s : session) (args : list string)
  : session * result :=
  match args with
  | [] => (s, Handled (UnknownCommand "diff"))
  | fpath :: more =>
      let idx := match more with
                 | a :: _ => match int a with
                             | Some n => Some (n - 1)%Z
                             | None => None
                             end
                 | [] => Some (last_idx s)
                 end in
      match idx with
      | None => (s, ValueError)
      | Some block_idx =>
          if negb (path_exists w fpath) then (s, Handled (FileNotFound fpath))
          else match CODE_BLOCKS s with
               | [] => (s, Handled NoBlocksToDiff)
               | _ =>
                   if in_range (CODE_BLOCKS s) block_idx then
                     match read_text w fpath with
                     | Some text =>
                         (s, Handled (DiffShown fpath text (block_idx + 1)
                                        (item (CODE_BLOCKS s) block_idx)))
                     | None => (s, Handled DiffError)
                     end
                   else (s, Handled (BlockNotFound (block_idx + 1)))
               end
      end
  end.

(** Lines 521-540. *)
Definition cmd_copy (w : world) (s : session) (args : list string)
  : session * result :=
  match CODE_BLOCKS s with
  | [] => (s, Handled NoBlocksFound)
  | _ =>
      let idx := match args with
                 | a :: _ => match int a with
                             | Some n => Some (n - 1)%Z
                             | None => None
                             end
                 | [] => Some (last_idx s)
                 end in
      match idx with
      | None => (s, Handled CopyUsage)
      | Some i =>
          if in_range (CODE_BLOCKS s) i then
            let content := item (CODE_BLOCKS s) i in
            if darwin w then
              if pbcopy_ok w then (s, Handled (Copied (i + 1) content))
              else (s, CalledProcessError)
            else (s, Handled ClipboardUnsupported)
          else (s, Handled (CopyNotFound (hd "" args) (List.length (CODE_BLOCKS s))))
      end
  end.

End Commands.

(** A reading of decimal numerals, enough of [int] for plain arguments such as
    [0] or [12]. *)
Definition digit_val (c : ascii) : option Z :=
  let n := nat_of_ascii c in
  if (48 <=? n)%nat && (n <=? 57)%nat then Some (Z.of_nat (n - 48)) else None.

Fixpoint decimal_from (acc : Z) (s : string) : option Z :=
  match s with
  | "" => Some acc
  | String c r =>
      match digit_val c with
      | Some d => decimal_from (10 * acc + d) r
      | None => None
      end
  end.

Definition decimal (s : string) : option Z :=
  match s with
  | "" => None
  | _ => decimal_from 0 s
  end.

End Cmd.

(* ================================================================== *)
(** ** The syntax highlighter (lines 247-281) *)

Module Highlight.

Definition RESET : string := String esc "[0m".
Definition YELLOW : string := String esc "[33m".
Definition BLUE : string := String esc "[34m".
Definition CYAN : string := String esc "[36m".
Definition GRAY : string := String esc "[90m".

Definition KEYWORDS : list string :=
  ["def"; "class"; "import"; "from"; "return"; "if"; "elif"; "else"; "while";
   "for"; "in"; "try"; "except"; "raise"; "print"; "with"; "as"; "pass";
   "break"; "continue"; "True"; "False"; "None"; "async"; "await"; "lambda";
   "global"; "nonlocal"; "assert"; "del"].

(** The first character of a string, if any. *)
Definition first_char (s : string) : option ascii :=
  match s with "" => None | String c _ => Some c end.

(** The last character of [s], or [prev] when [s] is empty. *)
Fixpoint last_char (prev : option ascii) (s : string) : option ascii :=
  match s with "" => prev | String c r => last_char (Some c) r end.

(** The classification of the ASCII characters by [\w] and [\d]. *)
Definition ascii_digit (c : ascii) : bool :=
  let n := nat_of_ascii c in (48 <=? n)%nat && (n <=? 57)%nat.

Definition ascii_word (c : ascii) : bool :=
  let n := nat_of_ascii c in
  ascii_digit c
  || ((65 <=? n)%nat && (n <=? 90)%nat)
  || ((97 <=? n)%nat && (n <=? 122)%nat)
  || (n =? 95)%nat.

Section Regex.

(** [\w] and [\d] of Python's [re] on [str] patterns: fixed on ASCII, and
    following the Unicode tables elsewhere, which are taken as given. *)
Variable is_word : ascii -> bool.
Variable is_digit : ascii -> bool.

(** [\b] between the character before a position and the one after it. *)
Definition boundary (before after : option ascii) : bool :=
  xorb (match before with Some c => is_word c | None => false end)
       (match after with Some c => is_word c | None => false end).

(** After an opening quote: the lazy [.*?] up to the next quote; a dot does not
    match a newline. *)
Fixpoint until_quote (q : ascii) (s : string) : option (string * string) :=
  match s with
  | "" => None
  | String c r =>
      if Ascii.eqb c q then Some (String c "", r)
      else if Ascii.eqb c nl then None
      else match until_quote q r with
           | Some (a, b) => Some (String c a, b)
           | None => None
           end
  end.

(** A match of the quoted-string pattern for the quote [q] at the start of [s]:
    the matched text and what follows it. *)
Definition match_quoted (q : ascii) (prev : option ascii) (s : string)
  : option (string * string) :=
  match s with
  | "" => None
  | String c r =>
      if Ascii.eqb c q then
        match until_quote q r with
        | Some (a, b) => Some (String c a, b)
        | None => None
        end
      else None
  end.

(** The alternation of [KW_PATTERN] followed by [\b]: the first keyword, in
    the order of the list, that is a prefix of [s] and ends at a boundary. *)
Fixpoint first_keyword (kws : list string) (s : string)
  : option (string * string) :=
  match kws with
  | [] => None
  | k :: ks =>
      match strip_prefix k s with
      | Some rest =>
          if boundary (last_char None k) (first_char rest) then Some (k, rest)
          else first_keyword ks s
      | None => first_keyword ks s
      end
  end.

(** A match of [KW_PATTERN] at the start of [s]. *)
Definition match_keyword (prev : option ascii) (s : string)
  : option (string * string) :=
  if boundary prev (first_char s) then first_keyword KEYWORDS s else None.

(** [\d+\b], greedy: take one more digit when the rest can still match, and
    otherwise stop here if this is a boundary. *)
Fixpoint digits_then_boundary (s : string) : option (string * string) :=
  match s with
  | "" => None
  | String c r =>
      if is_digit c then
        match digits_then_boundary r with
        | Some (a, b) => Some (String c a, b)
        | None =>
            if boundary (Some c) (first_char r) then Some (String c "", r)
            else None
        end
      else None
  end.

(** A match of [\b(\d+)\b] at the start of [s]. *)
Definition match_number (prev : option ascii) (s : string)
  : option (string * string) :=
  if boundary prev (first_char s) then digits_then_boundary s else None.

(** [re.sub(pattern, color + "\1" + RESET, s)] for a pattern whose group is
    the whole match: scan from the left, wrap each match, and go on after it.
    [matcher prev s] is the match that starts at the head of [s] when [prev] is
    the character before it.  A match is never empty, so [String.length s]
    rounds are enough. *)
Fixpoint re_sub (fuel : nat)
  (matcher : option ascii -> string -> option (string * string))
  (color : string) (prev : option ascii) (s : string) : string :=
  match fuel with
  | O => s
  | S f =>
      match s with
      | "" => ""
      | String c r =>
          match matcher prev s with
          | Some (a, b) =>
              color ++ a ++ RESET ++ re_sub f matcher color (last_char prev a) b
          | None => String c (re_sub f matcher color (Some c) r)
          end
      end
  end.

Definition sub (matcher : option ascii -> string -> option (string * string))
  (color : string) (s : string) : string :=
  re_sub (String.length s) matcher color None s.

(** Lines 266-281. *)
Definition highlight_code_text (text : string) : string :=
  let text := sub (match_quoted dquote) YELLOW text in
  let text := sub (match_quoted "'") YELLOW text in
  let text := sub match_keyword BLUE text in
  let text := sub match_number CYAN text in
  text.

(** Lines 255-264. *)
Definition highlight_code_line (line : string) : string :=
  if contains_char "#" line then
    match split_once "#" line with
    | Some (code, comment) =>
        highlight_code_text code ++ (GRAY ++ "#" ++ comment ++ RESET)
    | None => highlight_code_text line
    end
  else highlight_code_text line.

End Regex.

(** *** Removing the colour sequences *)

(** After [ESC "["]: the number of characters up to and including the final
    [m], when only digits and semicolons come before it. *)
Fixpoint sgr_len (s : string) : option nat :=
  match s with
  | "" => None
  | String c r =>
      if Ascii.eqb c "m" then Some 1
      else if ascii_digit c || Ascii.eqb c ";" then
        match sgr_len r with Some n => Some (S n) | None => None end
      else None
  end.

(** Delete every colour sequence [ESC "[" (digit | ";")* "m"]; [pending] is
    the number of characters of the current sequence still to drop. *)
Fixpoint strip_from (pending : nat) (s : string) : string :=
  match s with
  | "" => ""
  | String c r =>
      match pending with
      | S k => strip_from k r
      | O =>
          if Ascii.eqb c esc then
            match r with
            | String b r' =>
                if Ascii.eqb b "[" then
                  match sgr_len r' with
                  | Some n => strip_from (S n) r
                  | None => String c (strip_from 0 r)
                  end
                else String c (strip_from 0 r)
            | "" => String c ""
            end
          else String c (strip_from 0 r)
      end
  end.

Definition strip_ansi (s : string) : string := strip_from 0 s.

End Highlight.

(* ================================================================== *)
(** ** The Rich path, one content delta at a time (lines 335-337, 349-350) *)

Module Rich.

Record state := mkState {
  full_content : string;
  CODE_BLOCKS : list string
}.

(** [if delta: full_content += delta] *)
Definition on_delta (fc : string) (delta : string) : string :=
  if nonempty delta then fc ++ delta else fc.

Definition run (deltas : list string) : state :=
  let fc := fold_left on_delta deltas "" in
  mkState fc (block_matches fc).

End Rich.

(* ================================================================== *)
(** ** Vocabulary of the statements *)

(** The response text of a delta sequence. *)
Definition text_of (deltas : list string) : string := join deltas.

Definition starts_tick (s : string) : bool :=
  match s with "" => false | String c _ => Ascii.eqb c tick end.

Fixpoint ends_tick (s : string) : bool :=
  match s with
  | "" => false
  | String c "" => Ascii.eqb c tick
  | String _ r => ends_tick r
  end.

(** No delta boundary falls inside a run of backticks: wherever the text
    received so far ends with a backtick, the next delta does not start with
    one. *)
Fixpoint clean_from (received : string) (deltas : list string) : bool :=
  match deltas with
  | [] => true
  | d :: r =>
      negb (ends_tick received && starts_tick d) && clean_from (received ++ d) r
  end.

Definition clean_splits (deltas : list string) : bool := clean_from "" deltas.

(** A stretch of text that holds no marker. *)
Definition marker_free (s : string) : bool :=
  match find_fence s with None => true | Some _ => false end.

(** A stretch of text that holds no marker and cannot lend a backtick to a
    marker that follows it. *)
Definition tight (s : string) : bool := marker_free s && negb (ends_tick s).

(** The complete lines of a text, each with its newline, and what is left
    after the last newline. *)
Fixpoint lines_of (s : string) : list string * string :=
  match s with
  | "" => ([], "")
  | String c r =>
      let '(ls, b) := lines_of r in
      if Ascii.eqb c nl then (NL :: ls, b)
      else match ls with
           | [] => ([], String c b)
           | l :: ls' => (String c l :: ls', b)
           end
  end.

(** The unfinished last line of a text: what follows its last newline. *)
Definition last_line (s : string) : string := snd (lines_of s).

(** ["```".join(parts)] *)
Fixpoint unsplit (parts : list string) : string :=
  match parts with
  | [] => ""
  | p :: r =>
      match r with
      | [] => p
      | _ => p ++ FENCE ++ unsplit r
      end
  end.

(** The stretches of a response laid out as text, then fenced blocks each
    followed by text: [t0 ``` c1 ``` t1 ``` c2 ``` t2 ...]. *)
Definition parts_of (t0 : string) (segs : list (string * string)) : list string :=
  t0 :: flat_map (fun seg => [fst seg; snd seg]) segs.

(** The text of a response with balanced markers: every block [c_i] sits
    strictly between its opening and its closing marker. *)
Definition layout (t0 : string) (segs : list (string * string)) : string :=
  unsplit (parts_of t0 segs).

(** The text of a response whose last block is never closed. *)
Definition open_layout (t0 : string) (segs : list (string * string))
  (body : string) : string :=
  unsplit (parts_of t0 segs ++ [body]).

(** Every stretch is marker-free, and every stretch that a marker follows is
    tight, so the markers of the text are exactly the ones written between the
    stretches. *)
Fixpoint parts_ok (parts : list string) : bool :=
  match parts with
  | [] => true
  | p :: r =>
      match r with
      | [] => marker_free p
      | _ => tight p && parts_ok r
      end
  end.

(** The state with another accumulated text. *)
Definition set_text (f : string) (st : Raw.state) : Raw.state :=
  Raw.mkState f (Raw.in_code_block st) (Raw.buffer st)
              (Raw.current_block_content st) (Raw.CODE_BLOCKS st).

(** The rounds of the parts loop after the first one. *)
Definition steps (st : Raw.state) (parts : list string) : Raw.state :=
  fold_left (fun s q => Raw.feed (Raw.toggle s) q) parts st.

(** Two lists of parts joined at their seam: the last part of the first list
    and the first part of the second become one part. *)
Fixpoint glue (ps qs : list string) : list string :=
  match ps with
  | [] => qs
  | p :: ps' =>
      match ps' with
      | [] => match qs with
              | [] => [p]
              | q :: qs' => (p ++ q) :: qs'
              end
      | _ => p :: glue ps' qs
      end
  end.

Definition scenario : list string :=
  ["Here is "; "code:" ++ NL ++ "```py"; NL ++ "x = 1" ++ NL; "```" ++ NL ++ "done"].

(* ================================================================== *)
(** ** Text with colour sequences put in *)

(** The colour sequences the highlighter writes. *)
Definition codes : list string :=
  [Highlight.RESET; Highlight.YELLOW; Highlight.BLUE; Highlight.CYAN;
   Highlight.GRAY].

(** [Marked plain shown]: [shown] is [plain], which holds no escape
    character, with colour sequences put in between its characters. *)
Inductive Marked : string -> string -> Prop :=
| Marked_nil : Marked "" ""
| Marked_char (c : ascii) (plain shown : string) :
    c <> esc -> Marked plain shown -> Marked (String c plain) (String c shown)
| Marked_code (k : string) (plain shown : string) :
    In k codes -> Marked plain shown -> Marked plain (k ++ shown).

(** A matcher finds nothing at any position inside the sequence [k],
    whatever comes before and after. *)
Fixpoint passes_over
  (matcher : option ascii -> string -> option (string * string))
  (k : string) : Prop :=
  match k with
  | "" => True
  | String c k' =>
      (forall prev s, matcher prev (String c (k' ++ s)) = None)
      /\ passes_over matcher k'
  end.

(** Every character of a string passes a test. *)
Fixpoint all_chars (f : ascii -> bool) (s : string) : bool :=
  match s with
  | "" => true
  | String c r => f c && all_chars f r
  end.

(** No keyword starts with the character [c]. *)
Definition starts_no_keyword (c : ascii) : bool :=
  forallb (fun kw => match kw with
                     | "" => false
                     | String d _ => negb (Ascii.eqb d c)
                     end) Highlight.KEYWORDS.

(* ================================================================== *)
(** ** Sample payloads *)

(** [s] between double quotes. *)
Definition quoted (s : string) : string := String dquote (s ++ String dquote "").

(** The text of a chunk that carries only a content delta; [escaped] is the
    content as it is written inside the JSON string. *)
Definition content_payload (escaped : string) : string :=
  "{" ++ quoted "choices" ++ ":[{" ++ quoted "delta" ++ ":{"
      ++ quoted "content" ++ ":" ++ quoted escaped ++ "}}]}".

(** The decoded chunk of [content_payload]. *)
Definition content_chunk (content : string) : json :=
  JObj [("choices", JArr [JObj [("delta", JObj [("content", JStr content)])]])].

(** The text of a closing chunk: an empty delta and a finish reason. *)
Definition stop_payload : string :=
  "{" ++ quoted "choices" ++ ":[{" ++ quoted "delta" ++ ":{},"
      ++ quoted "finish_reason" ++ ":" ++ quoted "stop" ++ "}]}".

Definition stop_chunk : json :=
  JObj [("choices", JArr [JObj [("delta", JObj []);
                                ("finish_reason", JStr "stop")]])].

(** [json.loads] on the payloads used below; every other text used below is
    not JSON. *)
Definition sample_loads (s : string) : option json :=
  if String.eqb s "{}" then Some (JObj [])
  else if String.eqb s (content_payload "hi") then Some (content_chunk "hi")
  else if String.eqb s (content_payload "```py\nx = 1\n```")
       then Some (content_chunk ("```py" ++ NL ++ "x = 1" ++ NL ++ "```"))
  else if String.eqb s stop_payload then Some stop_chunk
  else None.

Definition fresh : meters := mkMeters (JNum 0) (JNum 0) (JStr "").

(** [line] decodes to a data line other than [data: [DONE]] whose payload
    [json.loads] turns into [chunk]: the lines that get as far as line 334
    (and 368). *)
Definition yields (loads : string -> option json) (line : string) (chunk : json)
  : Prop :=
  exists text,
    decode line = Some text
    /\ String.prefix "data: " text = true
    /\ text <> "data: [DONE]"
    /\ loads (skip 6 text) = Some chunk.

(** Every chunk the lines yield carries a non-empty content delta. *)
Definition all_content (loads : string -> option json) (lines : list string)
  : Prop :=
  forall line chunk d,
    In line lines -> yields loads line chunk ->
    delta_of chunk = inl d -> truthy d = true.

(** A chunk whose first choice is an object without a [delta], or with a
    [delta] object without [content]. *)
Definition lacks_content (chunk : json) : bool :=
  match chunk with
  | JObj kvs =>
      match lookup "choices" kvs with
      | Some (JArr (JObj c0 :: _)) =>
          match lookup "delta" c0 with
          | None => true
          | Some (JObj d) =>
              match lookup "content" d with None => true | Some _ => false end
          | Some _ => false
          end
      | _ => false
      end
  | _ => false
  end.

(* ================================================================== *)
(** ** Sample session *)

Definition sample_session (blocks : list string) : Cmd.session :=
  Cmd.mkSession "lab" "recon" "normal" "raw" "default" []
                [("system", "prompt")] blocks.

(** A machine with no file at all, and one where every file exists and reads
    as [text]. *)
Definition no_files : Cmd.world :=
  Cmd.mkWorld (fun _ => false) (fun _ => None) true true.

Definition every_file (text : string) : Cmd.world :=
  Cmd.mkWorld (fun _ => true) (fun _ => Some text) true true.

(* ================================================================== *)
(** ** Sample streams and states *)

(** A state between two blocks. *)
Definition resting (fc : string) (blocks : list string) : Raw.state :=
  Raw.mkState fc false "" [] blocks.

(** [line] is a data line whose chunk carries the content delta [d] and
    nothing else. *)
Definition carries (loads : string -> option json) (line d : string) : Prop :=
  yields loads line (content_chunk d).

(** Every chunk one line yields carries a non-empty content delta. *)
Definition line_has_content (loads : string -> option json) (line : string)
  : Prop :=
  forall chunk d,
    yields loads line chunk -> delta_of chunk = inl d -> truthy d = true.

Definition whole : list string := ["Hello ```print(1)``` done"].
Definition cut_in_marker : list string := ["Hello ``"; "`print(1)``` done"].
Definition cut_beside_marker : list string :=
  ["Hello "; "```print(1)"; "``` done"].


Definition open_stream : list string := ["```py" ++ NL; "x = 1"].

Definition bad_then_good : list string :=
  ["data: {}"; "data: " ++ content_payload "hi"].

Definition closed_stream : list string :=
  ["data: " ++ content_payload "```py\nx = 1\n```"; "data: " ++ stop_payload;
   "data: [DONE]"].

Definition noisy_stream : list string :=
  ["data: not json"; "data: " ++ stop_payload; "data: " ++ content_payload "hi"].

Definition content_stream : list string :=
  ["data: " ++ content_payload "hi"; ""; "data: [DONE]"].

(** A data line whose payload is the single byte [FF], which no UTF-8 text
    holds, followed by a line that alone would give the text [hi]. *)
Definition garbled : string := "data: " ++ String "255" "".

Definition garbled_then_good : list string :=
  [garbled; "data: " ++ content_payload "hi"].

(** A block left open after two complete lines. *)
Definition open_after_newline : list string :=
  ["```py" ++ NL; "x = 1" ++ NL; "y = 2" ++ NL].

(* ================================================================== *)
(** ** The raw scanner before the final flush, and what it counts *)

(** The state of the raw loop after the deltas, before lines 415-419. *)
Definition scanned (deltas : list string) : Raw.state :=
  fold_left Raw.on_delta deltas Raw.init.

(** The markers the raw scanner sees in one delta: one between every two
    consecutive parts of [delta.split]. *)
Definition markers_in (delta : string) : nat :=
  List.length (split_fence delta) - 1.

(** The markers it sees in a whole sequence of deltas. *)
Definition markers_seen (deltas : list string) : nat :=
  fold_right (fun d n => markers_in d + n) 0 deltas.

(** A complete line: text without a newline, followed by one. *)
Definition complete_line (l : string) : Prop :=
  exists a, l = a ++ NL /\ contains_char nl a = false.

(** The buffer holds no newline, the collected entries are complete lines,
    and outside a block nothing is pending. *)
Definition settled (st : Raw.state) : Prop :=
  contains_char nl (Raw.buffer st) = false
  /\ Forall complete_line (Raw.current_block_content st)
  /\ (Raw.in_code_block st = false ->
      Raw.buffer st = "" /\ Raw.current_block_content st = []).

(** After [k] markers: inside a block exactly when [k] is odd, with one block
    captured for every two markers. *)
Definition counted (k : nat) (st : Raw.state) : Prop :=
  Raw.in_code_block st = Nat.odd k
  /\ List.length (Raw.CODE_BLOCKS st) = k / 2.

(** A response whose blocks all start with an opening line: [info] up to the
    first newline, then [body].  Each entry is [(info, body, text after)]. *)
Definition with_info (seg : string * string * string) : string * string :=
  let '(info, body, after) := seg in (info ++ NL ++ body, after).

Definition info_of (seg : string * string * string) : string := fst (fst seg).
Definition body_of (seg : string * string * string) : string := snd (fst seg).

(** A data line: what [line.startswith("data: ")] selects. *)
Definition is_data (line : string) : bool := String.prefix "data: " line.

(** A line the loops pass over at once: an empty one (lines 328 and 362), or
    one that decodes to a text that is not a data line (lines 330 and 364). *)
Definition passed_over (line : string) : bool :=
  negb (nonempty line)
  || match decode line with
     | Some text => negb (is_data text)
     | None => false
     end.

(** A character no pass of the highlighter can start a match at: neither a
    quote nor a [#], and neither a word character nor a digit. *)
Definition inert (is_word is_digit : ascii -> bool) (c : ascii) : bool :=
  negb (is_word c) && negb (is_digit c)
  && negb (Ascii.eqb c dquote) && negb (Ascii.eqb c "'")
  && negb (Ascii.eqb c "#").

(* ================================================================== *)
(** ** The system prompt and the commands that rebuild it
    ([system_prompt], [reset_context], lines 133-148 and 545-557, 672-677) *)

Module Session.

Definition MODE_PROMPTS : list (string * string) :=
  [("lab", "Authorization confirmed. Full offensive and defensive guidance allowed.");
   ("recon", "Passive and low-noise reconnaissance only.");
   ("defence", "Blue-team focus: detection, hardening, and remediation.");
   ("exploit", "Exploit phase. Assume explicit authorization. Focus on reliability, verification, and post-exploitation hygiene.");
   ("normal", "Standard assistance mode. Provide helpful, general-purpose guidance.")].

Definition PHASE_PROMPTS : list (string * string) :=
  [("recon", "Phase: Reconnaissance.");
   ("enum", "Phase: Enumeration.");
   ("exploit", "Phase: Exploitation.");
   ("report", "Phase: Reporting (no new actions).");
   ("general", "Phase: General.")].

Definition DEPTH_PROMPTS : list (string * string) :=
  [("quick", "Be brief and direct.");
   ("normal", "Balance clarity and detail.");
   ("deep", "Be thorough and include edge cases.")].

Definition FORMAT_PROMPTS : list (string * string) :=
  [("raw", "");
   ("bullets", "Format output as bullet points.");
   ("checklist", "Format output as a checklist.");
   ("report", "Format output as a professional report.");
   ("commands", "Output only command blocks.")].

(** [d[key]] on a dict of strings. *)
Fixpoint dict_item (d : list (string * string)) (key : string) : raising string :=
  match d with
  | [] => throw KeyError
  | (k, v) :: r => if String.eqb k key then ret v else dict_item r key
  end.

(** [key in d] *)
Definition has_key (d : list (string * string)) (key : string) : bool :=
  existsb (fun kv => String.eqb (fst kv) key) d.

(** A message of the history: role and content. *)
Definition message : Type := string * string.

Definition with_messages (ms : list message) (s : Cmd.session) : Cmd.session :=
  Cmd.mkSession (Cmd.SEC_MODE s) (Cmd.PHASE s) (Cmd.DEPTH s) (Cmd.FORMAT s)
                (Cmd.ENGAGEMENT s) (Cmd.MEMORY s) ms (Cmd.CODE_BLOCKS s).

Definition with_mode (v : string) (s : Cmd.session) : Cmd.session :=
  Cmd.mkSession v (Cmd.PHASE s) (Cmd.DEPTH s) (Cmd.FORMAT s)
                (Cmd.ENGAGEMENT s) (Cmd.MEMORY s) (Cmd.messages s)
                (Cmd.CODE_BLOCKS s).

Definition with_phase (v : string) (s : Cmd.session) : Cmd.session :=
  Cmd.mkSession (Cmd.SEC_MODE s) v (Cmd.DEPTH s) (Cmd.FORMAT s)
                (Cmd.ENGAGEMENT s) (Cmd.MEMORY s) (Cmd.messages s)
                (Cmd.CODE_BLOCKS s).

Definition with_depth (v : string) (s : Cmd.session) : Cmd.session :=
  Cmd.mkSession (Cmd.SEC_MODE s) (Cmd.PHASE s) v (Cmd.FORMAT s)
                (Cmd.ENGAGEMENT s) (Cmd.MEMORY s) (Cmd.messages s)
                (Cmd.CODE_BLOCKS s).

Definition with_format (v : string) (s : Cmd.session) : Cmd.session :=
  Cmd.mkSession (Cmd.SEC_MODE s) (Cmd.PHASE s) (Cmd.DEPTH s) v
                (Cmd.ENGAGEMENT s) (Cmd.MEMORY s) (Cmd.messages s)
                (Cmd.CODE_BLOCKS s).

(** How a call of [handle_command] ends: [return True],
    [return "GENERATE"], or an exception. *)
Inductive ended :=
| ReturnedTrue
| ReturnedGenerate
| Raising (e : exn).

(** The message [:continue] and the automatic continuation send. *)
Definition cont_msg : message :=
  ("user", "Continue exactly where you stopped. Do not repeat.").

Section Prompt.

(** The text of [BASE_SYSTEM_TMPL] with the assistant's name filled in; its
    wording plays no part below. *)
Variable base : string.

(** Lines 133-144.  The list display evaluates the four lookups in order, so
    the first missing key raises. *)
Definition system_prompt (s : Cmd.session) : raising string :=
  mode <- dict_item MODE_PROMPTS (Cmd.SEC_MODE s) ;;
  phase <- dict_item PHASE_PROMPTS (Cmd.PHASE s) ;;
  depth <- dict_item DEPTH_PROMPTS (Cmd.DEPTH s) ;;
  format <- dict_item FORMAT_PROMPTS (Cmd.FORMAT s) ;;
  let parts := [base; mode; phase; depth; format;
                "Current engagement: " ++ Cmd.ENGAGEMENT s] in
  let parts :=
    match Cmd.MEMORY s with
    | [] => parts
    | _ => snoc parts ("Known facts:" ++ NL
                       ++ String.concat NL (map (fun m => "- " ++ m) (Cmd.MEMORY s)))
    end in
  ret (String.concat NL (filter nonempty parts)).

(** Lines 146-148. *)
Definition reset_context (s : Cmd.session) : Cmd.session * option exn :=
  match system_prompt s with
  | inl p => (with_messages [("system", p)] s, None)
  | inr e => (s, Some e)
  end.

(** [reset_context(); header(); return True]; [header] only prints. *)
Definition reset_and_return (s : Cmd.session) : Cmd.session * ended :=
  match reset_context s with
  | (s', None) => (s', ReturnedTrue)
  | (s', Some e) => (s', Raising e)
  end.

(** [cmd in ("lab", "recon", "defence", "exploit", "normal")] *)
Definition is_mode (cmd : string) : bool :=
  existsb (String.eqb cmd) ["lab"; "recon"; "defence"; "exploit"; "normal"].

(** Lines 545-550, for a [cmd] that [is_mode]. *)
Definition cmd_mode (cmd : string) (s : Cmd.session) : Cmd.session * ended :=
  let s := with_mode cmd s in
  let s := if String.eqb cmd "exploit" then with_phase "exploit" s else s in
  let s := if String.eqb cmd "normal" then with_phase "general" s else s in
  reset_and_return s.

(** Lines 552-557, with a first argument [v]. *)
Definition cmd_phase (v : string) (s : Cmd.session) : Cmd.session * ended :=
  reset_and_return (with_phase v s).

Definition cmd_depth (v : string) (s : Cmd.session) : Cmd.session * ended :=
  reset_and_return (with_depth v s).

Definition cmd_format (v : string) (s : Cmd.session) : Cmd.session * ended :=
  reset_and_return (with_format v s).

(** Lines 672-673. *)
Definition cmd_reset (s : Cmd.session) : Cmd.session * ended :=
  reset_and_return s.

End Prompt.

(** Lines 675-677. *)
Definition cmd_continue (s : Cmd.session) : Cmd.session * ended :=
  (with_messages (snoc (Cmd.messages s) cont_msg) s, ReturnedGenerate).

End Session.

(* ================================================================== *)
(** ** The [:compress] branch of [handle_command] (lines 476-519) *)

Module Compress.

(** The message that stands for the compressed part (line 510). *)
Definition summary_msg (summary : string) : Session.message :=
  ("system", "PREVIOUS SESSION SUMMARY:" ++ NL ++ summary).

Section Summary.

(** The request of lines 489-506 for the messages to compress: the summary
    text the model returns, or [None] when the call or the decoding of its
    answer raises (the handler of line 517 then reports the failure). *)
Variable summarize : list Session.message -> option string.

Definition cmd_compress (s : Cmd.session) : Cmd.session * Session.ended :=
  let messages := Cmd.messages s in
  let n := List.length messages in
  if (n <? 5)%nat then (s, Session.ReturnedTrue)
  else
    (* [messages[1:-2]] *)
    let to_compress := firstn (n - 3) (skipn 1 messages) in
    match summarize to_compress with
    | Some summary =>
        let new_messages :=
          (firstn 1 messages ++ [summary_msg summary]
           ++ skipn (n - 2) messages)%list in
        (Session.with_messages new_messages s, Session.ReturnedTrue)
    | None => (s, Session.ReturnedTrue)
    end.

End Summary.

End Compress.

(* ================================================================== *)
(** ** One round of the session loop (lines 689-787) *)

Module Loop.

Definition AUTO_CONTINUE_LIMIT : nat := 2.

(** How a call of [stream_completion] ends for the loop: it returns the text
    and the finish reason, or an exception leaves it. *)
Inductive reply :=
| Reply (content : string) (finish_reason : json)
| Crash.

(** [finish_reason == "length"] *)
Definition is_length (finish_reason : json) : bool :=
  match finish_reason with
  | JStr r => String.eqb r "length"
  | _ => false
  end.

(** What a round leaves: the history, the message lists sent to
    [stream_completion] in order, and whether the loop was left. *)
Record round := mkRound {
  history : list Session.message;
  requests : list (list Session.message);
  left_loop : bool
}.

Section Round.

(** [str.strip] *)
Variable strip : string -> string.

(** [handle_command], whose every [return] gives [True] or ["GENERATE"]. *)
Variable handle_command : Cmd.session -> string -> Cmd.session * Session.ended.

(** The network and the model behind it: the reply to the [n]-th call of
    [stream_completion] in this round, for the messages it is given. *)
Variable complete : nat -> list Session.message -> reply.

(** Lines 756-779 when the prompt is kept in the history: [budget] rounds are
    left, [call] calls were made, [reqs] were sent. *)
Fixpoint continue_kept (budget call : nat) (messages : list Session.message)
  (finish_reason : json) (reqs : list (list Session.message))
  : list Session.message * list (list Session.message) :=
  match budget with
  | O => (messages, reqs)
  | S budget' =>
      if is_length finish_reason then
        let messages := snoc messages Session.cont_msg in
        match complete call messages with
        | Reply chunk reason =>
            continue_kept budget' (S call)
              (snoc messages ("assistant", chunk)) reason (snoc reqs messages)
        | Crash => (messages, snoc reqs messages)
        end
      else (messages, reqs)
  end.

(** Lines 756-779 for an ephemeral prompt: the history is not touched;
    [to_send] is the private copy and [content] the variable of that name. *)
Fixpoint continue_ephemeral (budget call : nat) (to_send : list Session.message)
  (content : string) (finish_reason : json)
  (reqs : list (list Session.message)) : list (list Session.message) :=
  match budget with
  | O => reqs
  | S budget' =>
      if is_length finish_reason then
        let to_send := snoc (snoc to_send ("assistant", content)) Session.cont_msg in
        match complete call to_send with
        | Reply chunk reason =>
            continue_ephemeral budget' (S call)
              (snoc to_send ("assistant", chunk)) chunk reason (snoc reqs to_send)
        | Crash => snoc reqs to_send
        end
      else reqs
  end.

(** One pass through the body of [while True] for the prompt [prompt_text]
    (already stripped, as line 692 leaves it). *)
Definition round_of (s : Cmd.session) (prompt_text : string) : round :=
  let messages := Cmd.messages s in
  if negb (nonempty prompt_text) then mkRound messages [] false
  else if existsb (String.eqb prompt_text) [":q"; "quit"; "exit"]
  then mkRound messages [] true
  else if String.prefix ":" prompt_text then
    (* [True] and ["GENERATE"] are both truthy, and an exception is caught:
       the loop goes to the next prompt in every case.  What the command
       itself sends ([:compress] posts a request of its own, lines 494-506)
       is no call of [stream_completion] and is not listed *)
    mkRound (Cmd.messages (fst (handle_command s prompt_text))) [] false
  else
    let bang := String.prefix "!" prompt_text in
    let ephemeral_prompt := if bang then strip (skip 1 prompt_text) else "" in
    if nonempty ephemeral_prompt then
      let to_send := snoc messages ("user", ephemeral_prompt) in
      match complete 0 to_send with
      | Crash => mkRound messages [to_send] false
      | Reply content reason =>
          mkRound messages
            (continue_ephemeral AUTO_CONTINUE_LIMIT 1 to_send content reason
               [to_send])
            false
      end
    else
      let messages := if bang then messages
                      else snoc messages ("user", prompt_text) in
      match complete 0 messages with
      | Crash => mkRound messages [messages] false
      | Reply content reason =>
          let '(messages', reqs) :=
            continue_kept AUTO_CONTINUE_LIMIT 1
              (snoc messages ("assistant", content)) reason [messages] in
          mkRound messages' reqs false
      end.

End Round.

End Loop.

(** [q] is the beginning of [ms]. *)
Definition begins (ms q : list Session.message) : Prop :=
  exists rest, ms = (q ++ rest)%list.

(* ================================================================== *)
(** ** Sample rounds *)

(** A session with two messages of history. *)
Definition talking : Cmd.session :=
  Cmd.mkSession "lab" "recon" "normal" "raw" "default" []
                [("system", "prompt"); ("user", "hello")] [].

(** A model that always answers [ok] and stops; one that always stops for
    length; one whose call raises. *)
Definition answers_ok (n : nat) (ms : list Session.message) : Loop.reply :=
  Loop.Reply "ok" (JStr "stop").

Definition answers_cut (n : nat) (ms : list Session.message) : Loop.reply :=
  Loop.Reply "cut" (JStr "length").

Definition answers_crash (n : nat) (ms : list Session.message) : Loop.reply :=
  Loop.Crash.

(** A [handle_command] that knows [:continue] only. *)
Definition only_continue (s : Cmd.session) (prompt_text : string)
  : Cmd.session * Session.ended :=
  Session.cmd_continue s.

(** A [strip] for texts without blanks at their ends. *)
Definition no_strip (s : string) : string := s.

(* ================================================================== *)
(** * Properties *)

(** ** Strings *)

Lemma append_nil_r (s : string) : s ++ "" = s.
Proof. induction s as [|c s IH]; simpl; [reflexivity | now rewrite IH]. Qed.

Lemma append_assoc (a b c : string) : (a ++ b) ++ c = a ++ (b ++ c).
Proof. induction a as [|x a IH]; simpl; [reflexivity | now rewrite IH]. Qed.

Lemma length_append (a b : string) :
  String.length (a ++ b) = String.length a + String.length b.
Proof. induction a as [|x a IH]; simpl; [reflexivity | now rewrite IH]. Qed.

Lemma nonempty_false (s : string) : nonempty s = false -> s = "".
Proof. destruct s; simpl; [reflexivity | discriminate]. Qed.

Lemma join_app (xs ys : list string) : join (xs ++ ys) = join xs ++ join ys.
Proof.
  unfold join. induction xs as [|x xs IH]; simpl; [reflexivity|].
  destruct xs as [|x' xs].
  - simpl. destruct ys; simpl; [now rewrite append_nil_r | reflexivity].
  - simpl in *. rewrite IH. now rewrite !append_assoc.
Qed.

Lemma join_cons (x : string) (xs : list string) : join (x :: xs) = x ++ join xs.
Proof. change (x :: xs) with ([x] ++ xs)%list. rewrite join_app. reflexivity. Qed.

(** ** The line loop of the raw path *)

Lemma split_once_none (c : ascii) (s : string) :
  split_once c s = None -> contains_char c s = false.
Proof.
  induction s as [|d r IH]; simpl; [reflexivity|].
  destruct (Ascii.eqb d c); [discriminate|].
  destruct (split_once c r) as [[a b]|]; [discriminate|]. auto.
Qed.

Lemma split_once_some (c : ascii) (s a b : string) :
  split_once c s = Some (a, b) ->
  s = a ++ String c b /\ contains_char c a = false.
Proof.
  revert a b. induction s as [|d r IH]; simpl; intros a b H; [discriminate|].
  destruct (Ascii.eqb_spec d c) as [->|Hne].
  - inversion H; subst. split; reflexivity.
  - destruct (split_once c r) as [[a' b']|]; [|discriminate].
    inversion H; subst. destruct (IH a' b eq_refl) as [-> Hc].
    split; [reflexivity|]. simpl.
    destruct (Ascii.eqb_spec d c); [contradiction | exact Hc].
Qed.

Lemma lines_of_no_nl (s : string) :
  contains_char nl s = false -> lines_of s = ([], s).
Proof.
  induction s as [|c r IH]; simpl; [reflexivity|].
  destruct (Ascii.eqb c nl); simpl; [discriminate|].
  intros H. now rewrite (IH H).
Qed.

Lemma lines_of_line (a b : string) :
  contains_char nl a = false ->
  lines_of (a ++ String nl b) = ((a ++ NL) :: fst (lines_of b), snd (lines_of b)).
Proof.
  intros H. induction a as [|c a IH]; simpl.
  - now destruct (lines_of b).
  - simpl in H. destruct (Ascii.eqb c nl); [discriminate|]. simpl in H.
    rewrite (IH H). reflexivity.
Qed.

(** With fuel for every character, the loop ends with the complete lines
    appended and the unfinished line in the buffer. *)
Lemma drain_lines (n : nat) (s : string) (cur : list string) :
  String.length s <= n ->
  Raw.drain n s cur = (snd (lines_of s), (cur ++ fst (lines_of s))%list).
Proof.
  revert s cur. induction n as [|n IH]; intros s cur Hn.
  - destruct s; simpl in *; [|lia]. now rewrite app_nil_r.
  - simpl. destruct (split_once nl s) as [[a b]|] eqn:E.
    + destruct (split_once_some _ _ _ _ E) as [-> Ha].
      rewrite IH.
      * rewrite (lines_of_line a b Ha). simpl. unfold snoc.
        now rewrite <- app_assoc.
      * rewrite length_append in Hn. simpl in Hn. lia.
    + rewrite (lines_of_no_nl s (split_once_none _ _ E)). simpl.
      now rewrite app_nil_r.
Qed.

Lemma lines_of_rest_no_nl (s : string) :
  contains_char nl (snd (lines_of s)) = false.
Proof.
  induction s as [|c r IH]; simpl; [reflexivity|].
  destruct (lines_of r) as [ls b]. simpl in IH.
  destruct (Ascii.eqb c nl) eqn:E; simpl; [exact IH|].
  destruct ls; simpl; [now rewrite E | exact IH].
Qed.

(** The loop leaves no newline in the buffer: its exit test holds. *)
Lemma drain_exits (s : string) (cur : list string) :
  contains_char nl (fst (Raw.drain (String.length s) s cur)) = false.
Proof. rewrite drain_lines by lia. simpl. apply lines_of_rest_no_nl. Qed.

Lemma lines_of_app (s t : string) :
  lines_of (s ++ t) =
  ((fst (lines_of s) ++ fst (lines_of (snd (lines_of s) ++ t)))%list,
   snd (lines_of (snd (lines_of s) ++ t))).
Proof.
  induction s as [|c r IH]; simpl.
  - now destruct (lines_of t).
  - rewrite IH. destruct (lines_of r) as [ls b]. simpl.
    destruct (Ascii.eqb c nl) eqn:E; simpl; [reflexivity|].
    destruct ls as [|l ls']; simpl.
    + rewrite E. now destruct (lines_of (b ++ t)) as [[|? ?] ?].
    + reflexivity.
Qed.

Lemma join_lines (s : string) :
  join (fst (lines_of s)) ++ snd (lines_of s) = s.
Proof.
  induction s as [|c r IH]; simpl; [reflexivity|].
  destruct (lines_of r) as [ls b]. simpl in IH.
  destruct (Ascii.eqb_spec c nl) as [->|Hne]; simpl.
  - rewrite join_cons. simpl. now rewrite IH.
  - destruct ls as [|l ls']; simpl.
    + simpl in IH. now rewrite IH.
    + rewrite join_cons in *. simpl. now rewrite IH.
Qed.

(** ** Splitting at the markers *)

Lemma split_fence_marker (r : string) :
  split_fence (FENCE ++ r) = "" :: split_fence r.
Proof. reflexivity. Qed.

Lemma split_fence_other (c : ascii) (r : string) :
  (forall r', String c r <> FENCE ++ r') ->
  split_fence (String c r) = cons_head c (split_fence r).
Proof.
  intros H. cbn [split_fence].
  destruct r as [|c2 [|c3 r3]]; try reflexivity.
  destruct (Ascii.eqb_spec c tick) as [->|]; [|reflexivity].
  destruct (Ascii.eqb_spec c2 tick) as [->|]; [|reflexivity].
  destruct (Ascii.eqb_spec c3 tick) as [->|]; [|reflexivity].
  exfalso. apply (H r3). reflexivity.
Qed.

Lemma marker_or_not (s : string) :
  s = "" \/ (exists r, s = FENCE ++ r) \/
  (exists c r, s = String c r /\ forall r', s <> FENCE ++ r').
Proof.
  destruct s as [|c1 r1]; [now left|right].
  destruct r1 as [|c2 [|c3 r3]];
    try (right; eexists; eexists; split; [reflexivity|];
         intros r' H; discriminate H).
  destruct (Ascii.eqb_spec c1 tick) as [->|N1].
  2:{ right. eexists; eexists; split; [reflexivity|].
      intros r' H. inversion H. contradiction. }
  destruct (Ascii.eqb_spec c2 tick) as [->|N2].
  2:{ right. eexists; eexists; split; [reflexivity|].
      intros r' H. inversion H. contradiction. }
  destruct (Ascii.eqb_spec c3 tick) as [->|N3].
  2:{ right. eexists; eexists; split; [reflexivity|].
      intros r' H. inversion H. contradiction. }
  left. exists r3. reflexivity.
Qed.

Lemma split_fence_nonempty (s : string) :
  exists p ps, split_fence s = p :: ps.
Proof.
  induction s as [|c r IH].
  - now exists "", [].
  - cbn [split_fence]. destruct IH as (p & ps & E). rewrite E.
    destruct r as [|c2 [|c3 r3]]; simpl; eauto.
    destruct (_ && _); simpl; eauto.
Qed.

Lemma ends_tick_String (c : ascii) (r : string) :
  ends_tick r = true -> ends_tick (String c r) = true.
Proof. destruct r; simpl; [discriminate | auto]. Qed.

Lemma glue_cons_head (c : ascii) (ps qs : list string) :
  ps <> [] -> glue (cons_head c ps) qs = cons_head c (glue ps qs).
Proof.
  destruct ps as [|p [|p' ps]]; intros H; [contradiction | |]; simpl.
  - now destruct qs.
  - reflexivity.
Qed.

Lemma glue_empty_head (ps qs : list string) :
  ps <> [] -> glue ("" :: ps) qs = "" :: glue ps qs.
Proof. destruct ps; [contradiction | reflexivity]. Qed.

(** Splitting a text in two where no run of backticks is cut: the parts of the
    whole are the parts of the halves, joined at the seam. *)
Lemma split_fence_app (a b : string) :
  ends_tick a && starts_tick b = false ->
  split_fence (a ++ b) = glue (split_fence a) (split_fence b).
Proof.
  remember (String.length a) as n eqn:Hn.
  assert (Hle : String.length a <= n) by lia. clear Hn.
  revert a Hle. induction n as [|n IH]; intros a Hle Hc.
  - destruct a; simpl in Hle; [|lia]. simpl.
    destruct (split_fence_nonempty b) as (q & qs & ->). reflexivity.
  - destruct (marker_or_not a) as [->|[(r & ->)|(c & r & -> & Hno)]].
    + simpl. destruct (split_fence_nonempty b) as (q & qs & ->). reflexivity.
    + change ((FENCE ++ r) ++ b) with (FENCE ++ (r ++ b)).
      rewrite !split_fence_marker.
      destruct (split_fence_nonempty r) as (p & ps & Er).
      rewrite glue_empty_head by (rewrite Er; discriminate).
      f_equal. apply IH.
      * simpl in Hle. lia.
      * destruct (ends_tick r) eqn:Et; [|reflexivity].
        assert (E3 : ends_tick (FENCE ++ r) = true).
        { change (FENCE ++ r) with (String tick (String tick (String tick r))).
          auto using ends_tick_String. }
        rewrite E3 in Hc. exact Hc.
    + change (String c r ++ b) with (String c (r ++ b)).
      rewrite (split_fence_other c r Hno).
      destruct (split_fence_nonempty r) as (p & ps & Er).
      rewrite glue_cons_head by (rewrite Er; discriminate).
      rewrite split_fence_other.
      * f_equal. apply IH; [simpl in Hle; lia|].
        destruct (ends_tick r) eqn:Et; [|reflexivity].
        rewrite <- Hc. now rewrite (ends_tick_String c r Et).
      * intros r' H. destruct r as [|c2 [|c3 r3]].
        -- simpl in H. inversion H; subst. simpl in Hc.
           discriminate Hc.
        -- simpl in H. inversion H; subst. simpl in Hc. discriminate Hc.
        -- simpl in H. inversion H; subst. apply (Hno (r3)). reflexivity.
Qed.

(** ** The parts loop of the raw path *)

Lemma feed_empty (st : Raw.state) : Raw.feed st "" = st.
Proof. reflexivity. Qed.

Lemma feed_text (st : Raw.state) (p : string) :
  Raw.in_code_block st = false -> Raw.feed st p = st.
Proof. intros H. unfold Raw.feed. rewrite H. now destruct (nonempty p). Qed.

Lemma feed_code (st : Raw.state) (p : string) :
  Raw.in_code_block st = true -> nonempty p = true ->
  Raw.feed st p =
  Raw.mkState (Raw.full_content st) true
    (snd (lines_of (Raw.buffer st ++ p)))
    (Raw.current_block_content st ++ fst (lines_of (Raw.buffer st ++ p)))
    (Raw.CODE_BLOCKS st).
Proof.
  intros Hc Hp. unfold Raw.feed. rewrite Hc, Hp. cbv zeta.
  rewrite drain_lines by lia. reflexivity.
Qed.

Lemma nonempty_app (x y : string) :
  nonempty x = true -> nonempty (x ++ y) = true.
Proof. destruct x; simpl; intros H; [discriminate | reflexivity]. Qed.

(** Feeding a text in two pieces is feeding it whole. *)
Lemma feed_feed (st : Raw.state) (x y : string) :
  Raw.feed (Raw.feed st x) y = Raw.feed st (x ++ y).
Proof.
  destruct (nonempty x) eqn:Hx.
  2:{ apply nonempty_false in Hx. subst. reflexivity. }
  destruct (nonempty y) eqn:Hy.
  2:{ apply nonempty_false in Hy. subst. now rewrite append_nil_r. }
  destruct (Raw.in_code_block st) eqn:Hc.
  - rewrite (feed_code st x Hc Hx).
    rewrite feed_code by (try reflexivity; exact Hy).
    rewrite (feed_code st (x ++ y) Hc (nonempty_app x y Hx)).
    cbn [Raw.full_content Raw.buffer Raw.current_block_content Raw.CODE_BLOCKS].
    rewrite <- (append_assoc (Raw.buffer st) x y).
    rewrite (lines_of_app (Raw.buffer st ++ x) y). cbn [fst snd].
    now rewrite app_assoc.
  - now rewrite !feed_text by (rewrite ?feed_text; assumption).
Qed.

Lemma steps_glue (ps : list string) (q : string) (qs : list string)
  (st : Raw.state) :
  ps <> [] ->
  steps (Raw.feed (steps st ps) q) qs = steps st (glue ps (q :: qs)).
Proof.
  revert st. induction ps as [|p ps IH]; intros st H; [contradiction|].
  destruct ps as [|p' ps].
  - cbn. now rewrite feed_feed.
  - change (glue (p :: p' :: ps) (q :: qs)) with (p :: glue (p' :: ps) (q :: qs)).
    change (steps st (p :: p' :: ps))
      with (steps (Raw.feed (Raw.toggle st) p) (p' :: ps)).
    rewrite IH by discriminate. reflexivity.
Qed.

Lemma process_parts_glue (ps qs : list string) (st : Raw.state) :
  ps <> [] -> qs <> [] ->
  Raw.process_parts (Raw.process_parts st ps) qs
  = Raw.process_parts st (glue ps qs).
Proof.
  destruct ps as [|p ps]; [contradiction|].
  destruct qs as [|q qs]; [contradiction|]. intros _ _.
  destruct ps as [|p' ps].
  - cbn. now rewrite feed_feed.
  - change (glue (p :: p' :: ps) (q :: qs)) with (p :: glue (p' :: ps) (q :: qs)).
    change (Raw.process_parts st (p :: p' :: ps))
      with (steps (Raw.feed st p) (p' :: ps)).
    change (Raw.process_parts st (p :: glue (p' :: ps) (q :: qs)))
      with (steps (Raw.feed st p) (glue (p' :: ps) (q :: qs))).
    rewrite <- steps_glue by discriminate. reflexivity.
Qed.

(** The accumulated text is carried along; no step reads it. *)
Lemma toggle_set_text (f : string) (st : Raw.state) :
  Raw.toggle (set_text f st) = set_text f (Raw.toggle st).
Proof. unfold Raw.toggle, set_text. simpl. now destruct (Raw.in_code_block st). Qed.

Lemma feed_set_text (f : string) (st : Raw.state) (p : string) :
  Raw.feed (set_text f st) p = set_text f (Raw.feed st p).
Proof.
  unfold Raw.feed, set_text. simpl. destruct (nonempty p); [|reflexivity].
  destruct (Raw.in_code_block st) eqn:E; [|now rewrite E].
  now destruct (Raw.drain _ _ _).
Qed.

Lemma steps_set_text (f : string) (ps : list string) (st : Raw.state) :
  steps (set_text f st) ps = set_text f (steps st ps).
Proof.
  revert st. induction ps as [|p ps IH]; intros st; [reflexivity|].
  cbn. rewrite toggle_set_text, feed_set_text. apply IH.
Qed.

Lemma process_parts_set_text (f : string) (ps : list string) (st : Raw.state) :
  Raw.process_parts (set_text f st) ps = set_text f (Raw.process_parts st ps).
Proof.
  destruct ps as [|p ps]; [reflexivity|].
  unfold Raw.process_parts. fold (steps (Raw.feed (set_text f st) p) ps).
  fold (steps (Raw.feed st p) ps).
  rewrite feed_set_text. apply steps_set_text.
Qed.

Lemma set_text_set_text (f g : string) (st : Raw.state) :
  set_text g (set_text f st) = set_text g st.
Proof. reflexivity. Qed.

Lemma on_delta_eq (st : Raw.state) (d : string) :
  Raw.on_delta st d =
  set_text (Raw.full_content st ++ d) (Raw.process_parts st (split_fence d)).
Proof.
  unfold Raw.on_delta. destruct (nonempty d) eqn:Hd.
  - fold (set_text (Raw.full_content st ++ d) st).
    apply process_parts_set_text.
  - apply nonempty_false in Hd. subst. cbn. rewrite append_nil_r.
    now destruct st.
Qed.

Lemma full_content_process_parts (st : Raw.state) (ps : list string) :
  Raw.full_content (Raw.process_parts st ps) = Raw.full_content st.
Proof.
  assert (Ht : forall s, Raw.full_content (Raw.toggle s) = Raw.full_content s).
  { intros s. unfold Raw.toggle. now destruct (Raw.in_code_block s). }
  assert (Hf : forall s p, Raw.full_content (Raw.feed s p) = Raw.full_content s).
  { intros s p. unfold Raw.feed. destruct (nonempty p); [|reflexivity].
    destruct (Raw.in_code_block s); [|reflexivity].
    now destruct (Raw.drain _ _ _). }
  destruct ps as [|p ps]; [reflexivity|]. unfold Raw.process_parts.
  rewrite <- (Hf st p). generalize (Raw.feed st p). clear st.
  induction ps as [|q ps IH]; intros s; [reflexivity|].
  cbn. rewrite IH, Hf, Ht. reflexivity.
Qed.

(** Two deltas whose seam cuts no run of backticks act as their
    concatenation. *)
Lemma on_delta_app (st : Raw.state) (a b : string) :
  ends_tick a && starts_tick b = false ->
  Raw.on_delta (Raw.on_delta st a) b = Raw.on_delta st (a ++ b).
Proof.
  intros Hc. rewrite (on_delta_eq st a), (on_delta_eq st (a ++ b)).
  rewrite on_delta_eq. cbn [set_text Raw.full_content].
  fold (set_text (Raw.full_content st ++ a) (Raw.process_parts st (split_fence a))).
  rewrite process_parts_set_text, set_text_set_text.
  rewrite append_assoc. f_equal.
  rewrite (split_fence_app a b Hc).
  destruct (split_fence_nonempty a) as (p & ps & Ea).
  destruct (split_fence_nonempty b) as (q & qs & Eb).
  rewrite Ea, Eb. apply process_parts_glue; discriminate.
Qed.

Lemma fold_on_delta_clean (ds : list string) (acc : string) (st : Raw.state) :
  clean_from acc ds = true ->
  fold_left Raw.on_delta ds (Raw.on_delta st acc)
  = Raw.on_delta st (acc ++ join ds).
Proof.
  revert acc. induction ds as [|d ds IH]; intros acc H.
  - cbn. now rewrite append_nil_r.
  - cbn [clean_from] in H. apply andb_true_iff in H. destruct H as [H1 H2].
    apply negb_true_iff in H1. cbn [fold_left].
    rewrite (on_delta_app st acc d H1), (IH _ H2).
    now rewrite join_cons, append_assoc.
Qed.

(** Under clean splits the raw path sees the deltas as one delta. *)
Lemma run_clean (ds : list string) :
  clean_splits ds = true -> Raw.run ds = Raw.run [text_of ds].
Proof.
  intros H. unfold Raw.run. f_equal. cbn [fold_left].
  change (fold_left Raw.on_delta ds Raw.init)
    with (fold_left Raw.on_delta ds (Raw.on_delta Raw.init "")).
  now rewrite (fold_on_delta_clean ds "" Raw.init H).
Qed.

(** The raw path accumulates the whole text, however it is cut. *)
Lemma full_content_fold (ds : list string) (st : Raw.state) :
  Raw.full_content (fold_left Raw.on_delta ds st)
  = Raw.full_content st ++ join ds.
Proof.
  revert st. induction ds as [|d ds IH]; intros st.
  - cbn. now rewrite append_nil_r.
  - cbn [fold_left]. rewrite IH, on_delta_eq. cbn [set_text Raw.full_content].
    now rewrite join_cons, append_assoc.
Qed.

Lemma full_content_flush (st : Raw.state) :
  Raw.full_content (Raw.flush st) = Raw.full_content st.
Proof. unfold Raw.flush. now destruct (_ && _). Qed.

Lemma full_content_run (ds : list string) :
  Raw.full_content (Raw.run ds) = text_of ds.
Proof. unfold Raw.run. now rewrite full_content_flush, full_content_fold. Qed.

Lemma rich_fold (ds : list string) (fc : string) :
  fold_left Rich.on_delta ds fc = fc ++ join ds.
Proof.
  revert fc. induction ds as [|d ds IH]; intros fc.
  - cbn. now rewrite append_nil_r.
  - cbn [fold_left]. rewrite IH, join_cons. unfold Rich.on_delta.
    destruct (nonempty d) eqn:Hd.
    + now rewrite append_assoc.
    + apply nonempty_false in Hd. now subst.
Qed.

Lemma rich_run (ds : list string) :
  Rich.run ds = Rich.mkState (text_of ds) (block_matches (text_of ds)).
Proof. unfold Rich.run. now rewrite rich_fold. Qed.

(** ** Texts laid out around their markers *)

Lemma find_fence_other (c : ascii) (r : string) :
  (forall r', String c r <> FENCE ++ r') ->
  find_fence (String c r) =
  match find_fence r with Some (a, b) => Some (String c a, b) | None => None end.
Proof.
  intros H. cbn [find_fence].
  destruct r as [|c2 [|c3 r3]]; try reflexivity.
  destruct (Ascii.eqb_spec c tick) as [->|]; [|reflexivity].
  destruct (Ascii.eqb_spec c2 tick) as [->|]; [|reflexivity].
  destruct (Ascii.eqb_spec c3 tick) as [->|]; [|reflexivity].
  exfalso. apply (H r3). reflexivity.
Qed.

Lemma marker_free_cons (c : ascii) (r : string) :
  marker_free (String c r) = true ->
  (forall r', String c r <> FENCE ++ r') /\ marker_free r = true.
Proof.
  intros H.
  destruct (marker_or_not (String c r)) as [E|[(r0 & E)|(c' & r' & E & Hno)]].
  - discriminate E.
  - rewrite E in H. discriminate H.
  - inversion E; subst c' r'. split; [exact Hno|].
    unfold marker_free in *. rewrite (find_fence_other c r Hno) in H.
    now destruct (find_fence r) as [[? ?]|].
Qed.

Lemma split_fence_free (s : string) :
  marker_free s = true -> split_fence s = [s].
Proof.
  induction s as [|c r IH]; intros H; [reflexivity|].
  destruct (marker_free_cons c r H) as [Hno Hr].
  now rewrite (split_fence_other c r Hno), (IH Hr).
Qed.

Lemma split_fence_tight (s r : string) :
  tight s = true -> split_fence (s ++ FENCE ++ r) = s :: split_fence r.
Proof.
  intros H. apply andb_true_iff in H. destruct H as [Hf He].
  apply negb_true_iff in He.
  rewrite split_fence_app by (now rewrite He).
  rewrite (split_fence_free s Hf), split_fence_marker. cbn.
  now rewrite append_nil_r.
Qed.

(** Python's [split] undoes [join] on such stretches. *)
Lemma split_unsplit (parts : list string) :
  parts <> [] -> parts_ok parts = true -> split_fence (unsplit parts) = parts.
Proof.
  induction parts as [|p r IH]; intros Hne H; [contradiction|].
  destruct r as [|p' r].
  - cbn in *. now apply split_fence_free.
  - change (unsplit (p :: p' :: r)) with (p ++ FENCE ++ unsplit (p' :: r)).
    change (parts_ok (p :: p' :: r)) with (tight p && parts_ok (p' :: r)) in H.
    apply andb_true_iff in H. destruct H as [Hp Hr].
    rewrite (split_fence_tight _ _ Hp). f_equal. apply IH; [discriminate|exact Hr].
Qed.

(** ** The search of the Rich path always runs to its end *)

Lemma find_fence_some (s a b : string) :
  find_fence s = Some (a, b) -> s = a ++ FENCE ++ b.
Proof.
  revert a b. induction s as [|c r IH]; intros a b H; [discriminate H|].
  destruct (marker_or_not (String c r)) as [E|[(r0 & E)|(c' & r' & E & Hno)]].
  - discriminate E.
  - rewrite E in H. cbn in H. inversion H; subst. exact E.
  - inversion E; subst c' r'. rewrite (find_fence_other c r Hno) in H.
    destruct (find_fence r) as [[a' b']|]; [|discriminate H].
    inversion H; subst. now rewrite (IH a' b eq_refl).
Qed.

(** Any fuel that covers the text gives the same list of blocks: the search
    never stops for lack of fuel. *)
Lemma findall_blocks_fuel (n : nat) :
  forall s f1 f2,
    String.length s <= n -> String.length s <= f1 -> String.length s <= f2 ->
    findall_blocks f1 s = findall_blocks f2 s.
Proof.
  induction n as [|n IH]; intros s f1 f2 Hn H1 H2.
  - destruct s; [|cbn in Hn; lia]. now destruct f1, f2.
  - destruct f1 as [|f1], f2 as [|f2];
      try (destruct s; [reflexivity | cbn in H1, H2; lia]).
    cbn [findall_blocks].
    destruct (find_fence s) as [[a after_open]|] eqn:E1; [|reflexivity].
    apply find_fence_some in E1.
    destruct (split_once nl after_open) as [[info body_on]|] eqn:E2; [|reflexivity].
    apply split_once_some in E2. destruct E2 as [E2 _].
    destruct (find_fence body_on) as [[body rest]|] eqn:E3; [|reflexivity].
    apply find_fence_some in E3.
    assert (Hl : String.length rest + 7 <= String.length s).
    { subst s after_open body_on. rewrite !length_append. cbn.
      rewrite !length_append. cbn. lia. }
    f_equal. apply IH; lia.
Qed.

(** ** Block capture of the raw path on a laid-out text *)

Lemma join_single (x : string) : join [x] = x.
Proof. reflexivity. Qed.

(** One block: opening marker, the text of the block, closing marker. *)
Lemma capture_block (fc : string) (blocks : list string) (c : string) :
  Raw.toggle (Raw.feed (Raw.toggle (resting fc blocks)) c)
  = resting fc (blocks ++ [c]).
Proof.
  destruct (nonempty c) eqn:Hc.
  - rewrite feed_code by (try reflexivity; exact Hc).
    cbn [Raw.toggle resting Raw.in_code_block Raw.buffer Raw.full_content
         Raw.current_block_content Raw.CODE_BLOCKS app append].
    unfold resting, snoc. do 3 f_equal.
    pose proof (join_lines c) as J.
    destruct (snd (lines_of c)) eqn:Es; cbn [nonempty].
    + now rewrite append_nil_r in J.
    + now rewrite join_app, join_single.
  - apply nonempty_false in Hc. subst. reflexivity.
Qed.

Lemma steps_segs (segs : list (string * string)) (fc : string)
  (blocks : list string) :
  steps (resting fc blocks) (flat_map (fun seg => [fst seg; snd seg]) segs)
  = resting fc (blocks ++ map fst segs).
Proof.
  revert blocks. induction segs as [|[c t] segs IH]; intros blocks.
  - cbn. now rewrite app_nil_r.
  - cbn [flat_map fst snd app]. unfold steps. cbn [fold_left].
    fold (steps (Raw.feed (Raw.toggle (Raw.feed (Raw.toggle (resting fc blocks)) c)) t)
                (flat_map (fun seg => [fst seg; snd seg]) segs)).
    rewrite capture_block, feed_text by reflexivity.
    rewrite IH. cbn [map fst]. now rewrite <- app_assoc.
Qed.

Lemma steps_app (st : Raw.state) (ps qs : list string) :
  steps st (ps ++ qs) = steps (steps st ps) qs.
Proof. unfold steps. apply fold_left_app. Qed.

(** The raw path on a single delta that is a balanced layout. *)
Lemma run_layout (t0 : string) (segs : list (string * string)) :
  parts_ok (parts_of t0 segs) = true ->
  Raw.run [layout t0 segs] = resting (layout t0 segs) (map fst segs).
Proof.
  intros H. unfold Raw.run. cbn [fold_left]. rewrite on_delta_eq.
  unfold layout. rewrite split_unsplit by (unfold parts_of; try discriminate; exact H).
  unfold parts_of. cbn [Raw.process_parts].
  fold (steps (Raw.feed Raw.init t0) (flat_map (fun seg => [fst seg; snd seg]) segs)).
  rewrite feed_text by reflexivity.
  change Raw.init with (resting "" []). rewrite steps_segs. reflexivity.
Qed.

(** The raw path on a single delta whose last block is left open with an
    unfinished last line. *)
Lemma run_open_layout (t0 : string) (segs : list (string * string))
  (body : string) :
  parts_ok (parts_of t0 segs ++ [body]) = true ->
  nonempty (snd (lines_of body)) = true ->
  Raw.CODE_BLOCKS (Raw.run [open_layout t0 segs body])
  = (map fst segs ++ [body])%list.
Proof.
  intros H Hb. unfold Raw.run. cbn [fold_left]. rewrite on_delta_eq.
  unfold open_layout.
  rewrite split_unsplit by (unfold parts_of; try discriminate; exact H).
  unfold parts_of. cbn [Raw.process_parts app].
  fold (steps (Raw.feed Raw.init t0)
              (flat_map (fun seg => [fst seg; snd seg]) segs ++ [body])).
  rewrite feed_text by reflexivity. rewrite steps_app.
  change Raw.init with (resting "" []). rewrite steps_segs.
  assert (Hne : nonempty body = true).
  { destruct body; [discriminate Hb | reflexivity]. }
  cbn [steps fold_left]. unfold steps. cbn [fold_left].
  rewrite feed_code by (try reflexivity; exact Hne).
  cbn [Raw.toggle resting Raw.in_code_block Raw.buffer Raw.full_content
       Raw.current_block_content Raw.CODE_BLOCKS app append].
  unfold Raw.flush, set_text.
  cbn [Raw.in_code_block Raw.buffer Raw.full_content
       Raw.current_block_content Raw.CODE_BLOCKS].
  rewrite Hb. cbn [andb Raw.CODE_BLOCKS]. unfold snoc.
  now rewrite join_app, join_single, join_lines.
Qed.

(** The same when the open block ends with a newline, or is empty: the buffer
    is empty at the end of the stream and the flush does not fire. *)
Lemma run_open_layout_dropped (t0 : string) (segs : list (string * string))
  (body : string) :
  parts_ok (parts_of t0 segs ++ [body]) = true ->
  nonempty (snd (lines_of body)) = false ->
  Raw.CODE_BLOCKS (Raw.run [open_layout t0 segs body]) = map fst segs.
Proof.
  intros H Hb. unfold Raw.run. cbn [fold_left]. rewrite on_delta_eq.
  unfold open_layout.
  rewrite split_unsplit by (unfold parts_of; try discriminate; exact H).
  unfold parts_of. cbn [Raw.process_parts app].
  fold (steps (Raw.feed Raw.init t0)
              (flat_map (fun seg => [fst seg; snd seg]) segs ++ [body])).
  rewrite feed_text by reflexivity. rewrite steps_app.
  change Raw.init with (resting "" []). rewrite steps_segs.
  cbn [steps fold_left]. unfold steps. cbn [fold_left].
  destruct (nonempty body) eqn:Hne.
  - rewrite feed_code by (try reflexivity; exact Hne).
    cbn [Raw.toggle resting Raw.in_code_block Raw.buffer Raw.full_content
         Raw.current_block_content Raw.CODE_BLOCKS app append].
    unfold Raw.flush, set_text.
    cbn [Raw.in_code_block Raw.buffer Raw.full_content
         Raw.current_block_content Raw.CODE_BLOCKS].
    rewrite Hb. reflexivity.
  - apply nonempty_false in Hne. subst body. reflexivity.
Qed.

(** ** Split-invariance *)

(** C1, as stated, fails: the same response text cut once inside the opening
    marker (two backticks ending one delta, one starting the next) leaves the
    raw path with a different [CODE_BLOCKS] list than the uncut text. *)
Lemma split_invariance_fails :
  text_of whole = text_of cut_in_marker /\
  Raw.CODE_BLOCKS (Raw.run whole) = ["print(1)"] /\
  Raw.CODE_BLOCKS (Raw.run cut_in_marker) = [" done"] /\
  Raw.CODE_BLOCKS (Raw.run whole) <> Raw.CODE_BLOCKS (Raw.run cut_in_marker).
Proof.
  split; [reflexivity|]. split; [reflexivity|]. split; [reflexivity|].
  vm_compute. intros H. discriminate H.
Qed.

(** C1, amended: for two ways of cutting the same response text into deltas,
    the accumulated text is the same in both paths and the Rich path ends in
    the same state; the raw path ends in the same state (text and
    [CODE_BLOCKS]) whenever neither cutting has a delta boundary inside a run
    of backticks. *)
Theorem split_invariance (ds1 ds2 : list string) :
  text_of ds1 = text_of ds2 ->
  Raw.full_content (Raw.run ds1) = Raw.full_content (Raw.run ds2)
  /\ Rich.run ds1 = Rich.run ds2
  /\ (clean_splits ds1 = true -> clean_splits ds2 = true ->
      Raw.run ds1 = Raw.run ds2).
Proof.
  intros H. repeat split.
  - now rewrite !full_content_run.
  - now rewrite !rich_run, H.
  - intros C1 C2. now rewrite (run_clean ds1 C1), (run_clean ds2 C2), H.
Qed.

Lemma split_invariance_witness :
  text_of whole = text_of cut_beside_marker /\
  Raw.CODE_BLOCKS (Raw.run whole) = Raw.CODE_BLOCKS (Raw.run cut_beside_marker).
Proof.
  assert (H : text_of whole = text_of cut_beside_marker) by reflexivity.
  split; [exact H|].
  destruct (split_invariance whole cut_beside_marker H) as (_ & _ & R).
  rewrite (R eq_refl eq_refl). reflexivity.
Defined.

(** ** Blocks of a balanced response *)



(** ** A stream that ends inside a block *)

(** C4: a stream that ends inside a block loses the block.  On the deltas
    [```py\n], [x = 1\n], [y = 2\n] the raw path ends inside the block with
    the three lines collected in [current_block_content], but the flush of
    lines 415-419 tests [buffer and in_code_block], the buffer is empty after
    a newline, and [CODE_BLOCKS] stays empty.  The Rich path, whose pattern
    needs a closing marker, captures nothing from an open block either: also
    not from [```py\n], [x = 1], where the raw path does commit the block. *)
Theorem unterminated_block_dropped :
  text_of open_after_newline
  = open_layout "" [] ("py" ++ NL ++ "x = 1" ++ NL ++ "y = 2" ++ NL)
  /\ Raw.in_code_block (Raw.run open_after_newline) = true
  /\ Raw.current_block_content (Raw.run open_after_newline)
     = ["py" ++ NL; "x = 1" ++ NL; "y = 2" ++ NL]
  /\ Raw.CODE_BLOCKS (Raw.run open_after_newline) = []
  /\ Rich.CODE_BLOCKS (Rich.run open_after_newline) = []
  /\ text_of open_stream = open_layout "" [] ("py" ++ NL ++ "x = 1")
  /\ Raw.CODE_BLOCKS (Raw.run open_stream) = ["py" ++ NL ++ "x = 1"]
  /\ Rich.CODE_BLOCKS (Rich.run open_stream) = [].
Proof. repeat split. Qed.

(** X29: what the flush of lines 415-419 does for a stream that ends inside
    a block.  In the raw path, for every delta sequence with no delta boundary
    inside a run of backticks whose text ends inside a block
    ([t0 ``` c1 ``` t1 ... ``` body]): when the last line of the open block is
    unfinished, the whole text of that block, the line of the opening marker
    included, is committed as the last entry of [CODE_BLOCKS]; when the open
    block ends with a newline, or is empty, nothing is committed for it and
    [CODE_BLOCKS] holds the closed blocks only. *)
Theorem unterminated_block_flushed (t0 : string)
  (segs : list (string * string)) (body : string) (ds : list string) :
  parts_ok (parts_of t0 segs ++ [body]) = true ->
  clean_splits ds = true ->
  text_of ds = open_layout t0 segs body ->
  Raw.CODE_BLOCKS (Raw.run ds)
  = if nonempty (last_line body) then (map fst segs ++ [body])%list
    else map fst segs.
Proof.
  intros Hok Hc Ht. rewrite (run_clean ds Hc), Ht.
  destruct (nonempty (last_line body)) eqn:Hb.
  - exact (run_open_layout t0 segs body Hok Hb).
  - exact (run_open_layout_dropped t0 segs body Hok Hb).
Qed.

Lemma unterminated_block_flushed_witness :
  Raw.CODE_BLOCKS (Raw.run open_stream) = ["py" ++ NL ++ "x = 1"]
  /\ Raw.CODE_BLOCKS (Raw.run open_after_newline) = [].
Proof.
  split.
  - exact (unterminated_block_flushed "" [] ("py" ++ NL ++ "x = 1") open_stream
             eq_refl eq_refl eq_refl).
  - exact (unterminated_block_flushed "" []
             ("py" ++ NL ++ "x = 1" ++ NL ++ "y = 2" ++ NL) open_after_newline
             eq_refl eq_refl eq_refl).
Defined.

(** ** The scenario of the specification *)

(** C3: on the deltas of the scenario both paths accumulate the stated text;
    the Rich path captures the stated block, which is entry 1 of the list;
    the raw path captures the block together with the line of the opening
    marker. *)
Theorem scenario_blocks :
  let text := "Here is code:" ++ NL ++ "```py" ++ NL ++ "x = 1" ++ NL
              ++ "```" ++ NL ++ "done" in
  Raw.full_content (Raw.run scenario) = text
  /\ Rich.full_content (Rich.run scenario) = text
  /\ Rich.CODE_BLOCKS (Rich.run scenario) = ["x = 1" ++ NL]
  /\ nth_error (Rich.CODE_BLOCKS (Rich.run scenario)) (1 - 1) = Some ("x = 1" ++ NL)
  /\ Raw.CODE_BLOCKS (Raw.run scenario) = ["py" ++ NL ++ "x = 1" ++ NL].
Proof. repeat split. Qed.

(** ** Clearing of [CODE_BLOCKS] *)

(** C8, as stated, fails: a call whose request times out returns before the
    list is reset, and the blocks of the previous response stay. *)
Lemma code_blocks_kept_on_failure :
  stream_completion sample_loads true (mkGlobals ["old block"] fresh) Timeout
  = (mkGlobals ["old block"] fresh, Returned "" (JStr "error")).
Proof. reflexivity. Qed.

(** C8, amended: once the request has succeeded, the call behaves as if
    [CODE_BLOCKS] had been empty on entry, whatever a previous response left
    there (and with no lines at all the list ends empty); when the request
    fails, the call returns the empty text with the reason ["error"] and
    leaves the globals as they were. *)
Theorem code_blocks_cleared (loads : string -> option json) (rich : bool)
  (blocks : list string) (m : meters) (lines : list string) :
  let g := mkGlobals blocks m in
  let failed := (g, Returned "" (JStr "error")) in
  stream_completion loads rich g (Streaming lines)
  = stream_completion loads rich (mkGlobals [] m) (Streaming lines)
  /\ CODE_BLOCKS (fst (stream_completion loads rich g (Streaming []))) = []
  /\ stream_completion loads rich g Timeout = failed
  /\ stream_completion loads rich g ConnectionError = failed
  /\ stream_completion loads rich g RequestException = failed.
Proof.
  cbv zeta. repeat split. now destruct rich.
Qed.

(** ** Malformed lines *)

Lemma decode_some (line text : string) :
  decode line = Some text -> text = line.
Proof.
  unfold decode. destruct (well_formed line); [|discriminate].
  intros H. now inversion H.
Qed.

(** What [yields] gives the line loops to rewrite with. *)
Lemma yields_line (loads : string -> option json) (line : string) (chunk : json) :
  yields loads line chunk ->
  nonempty line = true
  /\ decode line = Some line
  /\ String.prefix "data: " line = true
  /\ String.eqb line "data: [DONE]" = false
  /\ loads (skip 6 line) = Some chunk.
Proof.
  intros (text & Hdec & Hp & Hd & Hl).
  pose proof (decode_some line text Hdec) as E. subst text.
  repeat split; try assumption.
  - destruct line; [discriminate Hp | reflexivity].
  - now apply String.eqb_neq.
Qed.

(** C7, as stated, fails: a line whose JSON has no [choices] raises
    [KeyError], which the per-line handler does not catch.  The raw path stops
    there and returns the reason ["error"], the Rich path lets the exception
    out; the next line, which alone would give the text [hi], is not read.
    A data line whose bytes are not UTF-8 ends the stream in the same way,
    with [UnicodeDecodeError] raised by the decoding of the line. *)
Lemma shapeless_line_aborts :
  snd (stream_completion sample_loads false (mkGlobals [] fresh)
         (Streaming bad_then_good))
  = Returned "" (JStr "error")
  /\ snd (stream_completion sample_loads true (mkGlobals [] fresh)
            (Streaming bad_then_good))
     = Raised KeyError
  /\ snd (stream_completion sample_loads false (mkGlobals [] fresh)
            (Streaming (tl bad_then_good)))
     = Returned "hi" (JStr "")
  /\ snd (stream_completion sample_loads false (mkGlobals [] fresh)
            (Streaming garbled_then_good))
     = Returned "" (JStr "error")
  /\ snd (stream_completion sample_loads true (mkGlobals [] fresh)
            (Streaming garbled_then_good))
     = Raised UnicodeDecodeError.
Proof. repeat split. Qed.

Lemma delta_of_lacks_content (chunk : json) :
  lacks_content chunk = true -> delta_of chunk = inl (JStr "").
Proof.
  unfold lacks_content, delta_of, subscript.
  destruct chunk as [| | | | |kvs]; try discriminate.
  destruct (lookup "choices" kvs) as [[| | | |[|[| | | | |c0] xs]|]|];
    try discriminate.
  cbn. destruct (lookup "delta" c0) as [[| | | | |d]|]; try discriminate.
  - cbn. destruct (lookup "content" d); [discriminate | reflexivity].
  - reflexivity.
Qed.

(** C7, amended: a line that decodes as UTF-8 to a data line whose payload
    is not JSON is skipped in both paths, with the state untouched and the
    loop going on with the next line; a chunk whose first choice lacks
    [delta], or whose [delta] lacks [content], counts as an empty delta, which
    the raw path skips in the same way. *)
Theorem malformed_line_skipped (loads : string -> option json)
  (line text : string) (rest : list string) :
  decode line = Some text ->
  String.prefix "data: " text = true ->
  text <> "data: [DONE]" ->
  (loads (skip 6 text) = None ->
     forall fc m rs,
       rich_line loads (fc, m) line = Continue (fc, m)
       /\ raw_line loads (rs, m) line = Continue (rs, m)
       /\ loop (rich_line loads) (fc, m) (line :: rest)
          = loop (rich_line loads) (fc, m) rest
       /\ loop (raw_line loads) (rs, m) (line :: rest)
          = loop (raw_line loads) (rs, m) rest)
  /\ (forall chunk, loads (skip 6 text) = Some chunk ->
        lacks_content chunk = true ->
        forall m rs,
          raw_line loads (rs, m) line = Continue (rs, m)
          /\ loop (raw_line loads) (rs, m) (line :: rest)
             = loop (raw_line loads) (rs, m) rest).
Proof.
  intros Hdec Hp Hd.
  pose proof (decode_some line text Hdec) as E. subst text.
  assert (Hn : nonempty line = true) by (destruct line; [discriminate Hp | reflexivity]).
  apply String.eqb_neq in Hd.
  split.
  - intros Hl fc m rs.
    assert (R : rich_line loads (fc, m) line = Continue (fc, m)).
    { unfold rich_line. now rewrite Hn, Hdec, Hp, Hd, Hl. }
    assert (W : raw_line loads (rs, m) line = Continue (rs, m)).
    { unfold raw_line. now rewrite Hn, Hdec, Hp, Hd, Hl. }
    repeat split; try assumption; cbn [loop]; [now rewrite R | now rewrite W].
  - intros chunk Hl Hc m rs.
    assert (W : raw_line loads (rs, m) line = Continue (rs, m)).
    { unfold raw_line.
      now rewrite Hn, Hdec, Hp, Hd, Hl, (delta_of_lacks_content chunk Hc). }
    split; [exact W|]. cbn [loop]. now rewrite W.
Qed.

Lemma malformed_line_skipped_witness :
  snd (stream_completion sample_loads false (mkGlobals [] fresh)
         (Streaming noisy_stream))
  = Returned "hi" (JStr "").
Proof.
  unfold stream_completion, noisy_stream.
  destruct (malformed_line_skipped sample_loads "data: not json" "data: not json"
              ["data: " ++ stop_payload; "data: " ++ content_payload "hi"]
              eq_refl eq_refl ltac:(discriminate)) as [H _].
  destruct (H eq_refl "" fresh Raw.init) as (_ & _ & _ & E).
  cbn [counters]. rewrite E. clear H E.
  destruct (malformed_line_skipped sample_loads ("data: " ++ stop_payload)
              ("data: " ++ stop_payload) ["data: " ++ content_payload "hi"]
              eq_refl eq_refl ltac:(discriminate)) as [_ H].
  destruct (H stop_chunk eq_refl eq_refl fresh Raw.init) as (_ & E).
  rewrite E. reflexivity.
Defined.

(** ** The two paths side by side *)

(** C2: on a stream of one block followed by the closing chunk (an empty
    delta and the finish reason [stop]) and [data: [DONE]], the two paths
    return the same text but not the same state.  The Rich path records the
    finish reason of the closing chunk and returns it; the raw path leaves
    the chunk at [if not delta: continue] (line 370) before the bookkeeping of
    lines 407-411, so it returns the reason it had before, here the empty
    one.  The raw path also keeps the line of the opening marker in the
    block, which the Rich path leaves out. *)
Theorem paths_disagree :
  stream_completion sample_loads true (mkGlobals [] fresh) (Streaming closed_stream)
  = (mkGlobals ["x = 1" ++ NL] (mkMeters (JNum 0) (JNum 0) (JStr "stop")),
     Returned ("```py" ++ NL ++ "x = 1" ++ NL ++ "```") (JStr "stop"))
  /\
  stream_completion sample_loads false (mkGlobals [] fresh) (Streaming closed_stream)
  = (mkGlobals ["py" ++ NL ++ "x = 1" ++ NL] fresh,
     Returned ("```py" ++ NL ++ "x = 1" ++ NL ++ "```") (JStr "")).
Proof. split; reflexivity. Qed.

Lemma update_meters_ok (chunk : json) (m m1 m' : meters) :
  update_meters chunk m = (m1, None) ->
  exists m1', update_meters chunk m' = (m1', None).
Proof.
  unfold update_meters, update_usage, update_finish.
  destruct chunk as [| | | | |kvs]; try discriminate.
  destruct (lookup "usage" kvs) as [u|].
  - destruct (get u "prompt_tokens" (JNum 0)) as [p|e]; [|discriminate].
    destruct (get u "completion_tokens" (JNum 0)) as [c|e]; [|discriminate].
    destruct (finish_of (JObj kvs)) as [f|e]; [|discriminate]. eauto.
  - destruct (finish_of (JObj kvs)) as [f|e]; [|discriminate]. eauto.
Qed.

Lemma full_content_on_delta (rs : Raw.state) (d : string) :
  Raw.full_content (Raw.on_delta rs d) = Raw.full_content rs ++ d.
Proof. now rewrite on_delta_eq. Qed.

(** One line: where the Rich path goes on, the raw path goes on too. *)
Lemma line_continue (loads : string -> option json) (line : string)
  (fc : string) (m : meters) (rs : Raw.state) (m' : meters)
  (fc1 : string) (m1 : meters) :
  Raw.full_content rs = fc ->
  rich_line loads (fc, m) line = Continue (fc1, m1) ->
  exists rs1 m1',
    raw_line loads (rs, m') line = Continue (rs1, m1')
    /\ Raw.full_content rs1 = fc1
    /\ (m = m' -> line_has_content loads line -> m1' = m1).
Proof.
  intros Hfc Hl. unfold rich_line in Hl. unfold raw_line.
  destruct (negb (nonempty line)).
  { inversion Hl; subst. exists rs, m'. repeat split; auto. }
  destruct (decode line) as [text|] eqn:Edec; [|discriminate Hl].
  destruct (String.prefix "data: " text) eqn:Ep.
  2:{ inversion Hl; subst. exists rs, m'. repeat split; auto. }
  destruct (String.eqb text "data: [DONE]") eqn:Ee; [discriminate Hl|].
  apply String.eqb_neq in Ee.
  destruct (loads (skip 6 text)) as [chunk|] eqn:El.
  2:{ inversion Hl; subst. exists rs, m'. repeat split; auto. }
  assert (Y : yields loads line chunk) by (exists text; auto).
  destruct (delta_of chunk) as [delta|e] eqn:Ed; [|discriminate Hl].
  destruct (truthy delta) eqn:Et.
  - destruct delta as [| | |d| |]; try discriminate Hl. cbn [add_text ret] in Hl.
    destruct (update_meters chunk m) as [m2 [e|]] eqn:Eu; [discriminate Hl|].
    inversion Hl; subst fc1 m1.
    destruct (update_meters_ok chunk m m2 m' Eu) as [m2' Eu']. rewrite Eu'.
    exists (Raw.on_delta rs d), m2'. repeat split.
    + now rewrite full_content_on_delta, Hfc.
    + intros Hm _. subst m'. rewrite Eu in Eu'. now inversion Eu'.
  - cbn [ret] in Hl.
    destruct (update_meters chunk m) as [m2 [e|]] eqn:Eu; [discriminate Hl|].
    inversion Hl; subst fc1 m1.
    exists rs, m'. repeat split; auto.
    intros _ A. exfalso. rewrite (A chunk delta Y Ed) in Et. discriminate Et.
Qed.

(** One line: where the Rich path leaves the loop, the raw path leaves it. *)
Lemma line_break (loads : string -> option json) (line : string)
  (st st1 : string * meters) (rt : Raw.state * meters) :
  rich_line loads st line = Break st1 ->
  st1 = st /\ raw_line loads rt line = Break rt.
Proof.
  destruct st as [fc m], rt as [rs m']. unfold rich_line, raw_line.
  destruct (negb (nonempty line)); [discriminate|].
  destruct (decode line) as [text|]; [|discriminate].
  destruct (String.prefix "data: " text); [|discriminate].
  destruct (String.eqb text "data: [DONE]").
  { intros H. inversion H. auto. }
  destruct (loads (skip 6 text)) as [chunk|]; [|discriminate].
  destruct (delta_of chunk) as [delta|e]; [|discriminate].
  destruct (if truthy delta then add_text fc delta else ret fc); [|discriminate].
  now destruct (update_meters chunk m) as [m2 [e|]].
Qed.

(** Where the Rich loop gets through the lines, the raw loop gets through
    them too, with the same text; and with the same counters when they start
    equal and every chunk carries content. *)
Lemma loops_agree (loads : string -> option json) (lines : list string) :
  forall fc m rs m' fc' mf,
    Raw.full_content rs = fc ->
    loop (rich_line loads) (fc, m) lines = ((fc', mf), None) ->
    exists rs' mf',
      loop (raw_line loads) (rs, m') lines = ((rs', mf'), None)
      /\ Raw.full_content rs' = fc'
      /\ (m = m' -> all_content loads lines -> mf' = mf).
Proof.
  induction lines as [|line lines IH]; intros fc m rs m' fc' mf Hfc Hl.
  - cbn in *. inversion Hl; subst. exists rs, m'. auto.
  - cbn [loop] in *.
    destruct (rich_line loads (fc, m) line) as [[fc1 m1]|[fc1 m1]|e st1] eqn:Es.
    + destruct (line_continue loads line fc m rs m' fc1 m1 Hfc Es)
        as (rs1 & m1' & Ew & T1 & C1).
      rewrite Ew.
      destruct (IH fc1 m1 rs1 m1' fc' mf T1 Hl) as (rs' & mf' & E & T & C).
      exists rs', mf'. repeat split; auto.
      intros Hm A. apply C.
      * symmetry. apply C1; [exact Hm|]. intros c d. apply (A line c d). now left.
      * intros l c d Hin. apply (A l c d). now right.
    + destruct (line_break loads line (fc, m) (fc1, m1) (rs, m') Es) as [E1 Ew].
      rewrite Ew. inversion E1; subst fc1 m1. inversion Hl; subst fc' mf.
      exists rs, m'. repeat split; auto.
    + discriminate Hl.
Qed.

(** *** From lines to deltas *)

Lemma raw_line_carries (loads : string -> option json) (line d : string)
  (rs : Raw.state) (m : meters) :
  carries loads line d ->
  exists m', raw_line loads (rs, m) line = Continue (Raw.on_delta rs d, m').
Proof.
  intros Hc. destruct (yields_line loads line _ Hc) as (Hn & Hdec & Hp & Hd & Hl).
  unfold raw_line. rewrite Hn, Hdec, Hp, Hd, Hl.
  cbn. destruct d as [|c d]; cbn; eauto.
Qed.

Lemma rich_line_carries (loads : string -> option json) (line d : string)
  (fc : string) (m : meters) :
  carries loads line d ->
  exists m', rich_line loads (fc, m) line = Continue (Rich.on_delta fc d, m').
Proof.
  intros Hc. destruct (yields_line loads line _ Hc) as (Hn & Hdec & Hp & Hd & Hl).
  unfold rich_line. rewrite Hn, Hdec, Hp, Hd, Hl.
  cbn. destruct d as [|c d]; cbn; eauto.
Qed.

Lemma raw_loop_carries (loads : string -> option json) (lines ds : list string) :
  Forall2 (carries loads) lines ds ->
  forall rs m, exists m',
    loop (raw_line loads) (rs, m) lines
    = ((fold_left Raw.on_delta ds rs, m'), None).
Proof.
  induction 1 as [|line d lines ds Hc _ IH]; intros rs m; cbn [loop fold_left].
  - eauto.
  - destruct (raw_line_carries loads line d rs m Hc) as [m1 ->]. apply IH.
Qed.

Lemma rich_loop_carries (loads : string -> option json) (lines ds : list string) :
  Forall2 (carries loads) lines ds ->
  forall fc m, exists m',
    loop (rich_line loads) (fc, m) lines
    = ((fold_left Rich.on_delta ds fc, m'), None).
Proof.
  induction 1 as [|line d lines ds Hc _ IH]; intros fc m; cbn [loop fold_left].
  - eauto.
  - destruct (rich_line_carries loads line d fc m Hc) as [m1 ->]. apply IH.
Qed.

(** On a stream whose lines carry the content deltas [ds], one per line,
    [stream_completion] ends as the runs over [ds] above: the same text and
    the same [CODE_BLOCKS], in either path. *)
Lemma stream_is_run (loads : string -> option json) (g : globals)
  (lines ds : list string) :
  Forall2 (carries loads) lines ds ->
  (exists m reason,
     stream_completion loads false g (Streaming lines)
     = (mkGlobals (Raw.CODE_BLOCKS (Raw.run ds)) m,
        Returned (Raw.full_content (Raw.run ds)) reason))
  /\ (exists m reason,
        stream_completion loads true g (Streaming lines)
        = (mkGlobals (Rich.CODE_BLOCKS (Rich.run ds)) m,
           Returned (Rich.full_content (Rich.run ds)) reason)).
Proof.
  intros H. unfold stream_completion. split.
  - destruct (raw_loop_carries loads lines ds H Raw.init (counters g)) as [m' ->].
    unfold Raw.run. eauto.
  - destruct (rich_loop_carries loads lines ds H "" (counters g)) as [m' ->].
    unfold Rich.run. cbn. eauto.
Qed.

(** X27: where the two paths do agree.  Whenever the Rich path returns, the
    raw path returns the same accumulated text; and when every chunk the
    stream yields carries a non-empty content delta, so that the raw path
    never leaves a chunk at line 370, it also ends with the same usage
    counters and returns the same finish reason. *)
Theorem paths_agree (loads : string -> option json) (g : globals)
  (lines : list string) (content : string) (reason : json) :
  snd (stream_completion loads true g (Streaming lines))
  = Returned content reason ->
  exists reason',
    snd (stream_completion loads false g (Streaming lines))
    = Returned content reason'
    /\ (all_content loads lines ->
        reason' = reason
        /\ counters (fst (stream_completion loads false g (Streaming lines)))
           = counters (fst (stream_completion loads true g (Streaming lines)))).
Proof.
  unfold stream_completion.
  destruct (loop (rich_line loads) ("", counters g) lines)
    as [[fc mf] [e|]] eqn:Er; cbn [snd fst]; [discriminate|].
  intros H. inversion H; subst content reason. clear H.
  destruct (loops_agree loads lines "" (counters g) Raw.init (counters g)
              fc mf eq_refl Er) as (rs' & mf' & E & T & C).
  rewrite E. cbn [snd fst counters]. exists (last_finish_reason mf').
  split.
  - now rewrite full_content_flush, T.
  - intros A. now rewrite (C eq_refl A).
Qed.

Lemma paths_agree_witness :
  exists reason',
    snd (stream_completion sample_loads false (mkGlobals [] fresh)
           (Streaming content_stream))
    = Returned "hi" reason'
    /\ reason' = JStr "".
Proof.
  destruct (paths_agree sample_loads (mkGlobals [] fresh) content_stream
              "hi" (JStr "") eq_refl) as (r & E & A).
  exists r. split; [exact E|]. apply A.
  intros line chunk d Hin Hy Hd.
  destruct (yields_line sample_loads line chunk Hy) as (Hn & _ & _ & He & Hl).
  destruct Hin as [<-|[<-|[<-|[]]]].
  - vm_compute in Hl. inversion Hl; subst chunk.
    vm_compute in Hd. inversion Hd. reflexivity.
  - discriminate Hn.
  - discriminate He.
Defined.

(** ** Block numbers of [:copy] and [:diff] *)

Lemma in_range_outside (blocks : list string) (n : Z) :
  (n = 0 \/ Z.of_nat (List.length blocks) < n)%Z ->
  Cmd.in_range blocks (n - 1) = false.
Proof.
  intros H. unfold Cmd.in_range. apply andb_false_iff.
  destruct H as [->|H]; [left | right]; [reflexivity|].
  apply Z.ltb_ge. lia.
Qed.

Lemma item_last (blocks : list string) :
  blocks <> [] ->
  Cmd.item blocks (Z.of_nat (List.length blocks) - 1) = last blocks "".
Proof.
  intros H. unfold Cmd.item.
  destruct (exists_last H) as (l & x & ->).
  rewrite length_app, last_last. cbn [List.length].
  replace (Z.to_nat (Z.of_nat (List.length l + 1) - 1)) with (List.length l) by lia.
  now rewrite nth_middle.
Qed.

Lemma in_range_last (blocks : list string) :
  blocks <> [] ->
  Cmd.in_range blocks (Z.of_nat (List.length blocks) - 1) = true.
Proof.
  intros H. unfold Cmd.in_range. destruct blocks as [|b blocks]; [contradiction|].
  apply andb_true_iff. split; [apply Z.leb_le | apply Z.ltb_lt]; cbn [List.length]; lia.
Qed.

(** C9, as stated, fails: [:diff] checks the file before the block number, so
    with a missing file block 0 is answered by "File not found"; and with no
    block captured, [:copy 1] is answered by "No code blocks found".  Neither
    is an out-of-range report (the state is unchanged in both). *)
Lemma out_of_range_report_fails :
  Cmd.cmd_diff Cmd.decimal no_files (sample_session ["x"]) ["missing.txt"; "0"]
  = (sample_session ["x"], Cmd.Handled (Cmd.FileNotFound "missing.txt"))
  /\ Cmd.cmd_copy Cmd.decimal no_files (sample_session []) ["1"]
     = (sample_session [], Cmd.Handled Cmd.NoBlocksFound).
Proof. split; reflexivity. Qed.

(** C9, amended: for a block number 0 or above the length of [CODE_BLOCKS],
    [:copy] and [:diff] copy and diff nothing and leave the whole session
    state unchanged.  The report is "Block #n not found" when the list is
    not empty (and, for [:diff], the file exists); with an empty list it is
    the "no code blocks" report, and for [:diff] a missing file is reported
    before anything else. *)
Theorem out_of_range_unchanged (int : string -> option Z) (w : Cmd.world)
  (s : Cmd.session) (arg : string) (n : Z) (more : list string)
  (fpath : string) :
  int arg = Some n ->
  (n = 0 \/ Z.of_nat (List.length (Cmd.CODE_BLOCKS s)) < n)%Z ->
  Cmd.cmd_copy int w s (arg :: more)
  = (s, Cmd.Handled
          (match Cmd.CODE_BLOCKS s with
           | [] => Cmd.NoBlocksFound
           | _ => Cmd.CopyNotFound arg (List.length (Cmd.CODE_BLOCKS s))
           end))
  /\ Cmd.cmd_diff int w s (fpath :: arg :: more)
     = (s, Cmd.Handled
             (if negb (Cmd.path_exists w fpath) then Cmd.FileNotFound fpath
              else match Cmd.CODE_BLOCKS s with
                   | [] => Cmd.NoBlocksToDiff
                   | _ => Cmd.BlockNotFound n
                   end)).
Proof.
  intros Hi Hn. pose proof (in_range_outside _ _ Hn) as Hr.
  unfold Cmd.cmd_copy, Cmd.cmd_diff. rewrite Hi.
  destruct (Cmd.CODE_BLOCKS s) as [|b bs] eqn:Eb.
  - split; [reflexivity|]. now destruct (negb (Cmd.path_exists w fpath)).
  - rewrite Hr. split; [reflexivity|].
    destruct (negb (Cmd.path_exists w fpath)); [reflexivity|].
    now replace (n - 1 + 1)%Z with n by lia.
Qed.

Lemma out_of_range_unchanged_witness :
  Cmd.cmd_copy Cmd.decimal (every_file "y") (sample_session ["x"]) ["2"]
  = (sample_session ["x"], Cmd.Handled (Cmd.CopyNotFound "2" 1))
  /\ Cmd.cmd_diff Cmd.decimal (every_file "y") (sample_session ["x"]) ["f.py"; "2"]
     = (sample_session ["x"], Cmd.Handled (Cmd.BlockNotFound 2)).
Proof.
  exact (out_of_range_unchanged Cmd.decimal (every_file "y")
           (sample_session ["x"]) "2" 2 [] "f.py" eq_refl
           (or_intror (eq_refl : (1 ?= 2)%Z = Lt))).
Defined.

(** C10: without a block number and with at least one block captured,
    [:copy] and [:diff] take the last block, whose 1-based number is the
    length of [CODE_BLOCKS]: on macOS [:copy] puts it on the clipboard, and
    [:diff] on an existing, readable file compares the file with it. *)
Theorem default_block_is_last (int : string -> option Z) (w : Cmd.world)
  (s : Cmd.session) (fpath : string) :
  Cmd.CODE_BLOCKS s <> [] ->
  let len := Z.of_nat (List.length (Cmd.CODE_BLOCKS s)) in
  let block := last (Cmd.CODE_BLOCKS s) "" in
  (Cmd.last_idx s + 1 = len)%Z
  /\ Cmd.item (Cmd.CODE_BLOCKS s) (Cmd.last_idx s) = block
  /\ Cmd.cmd_copy int w s []
     = (s, if Cmd.darwin w
           then if Cmd.pbcopy_ok w then Cmd.Handled (Cmd.Copied len block)
                else Cmd.CalledProcessError
           else Cmd.Handled Cmd.ClipboardUnsupported)
  /\ Cmd.cmd_diff int w s [fpath]
     = (s, Cmd.Handled
             (if negb (Cmd.path_exists w fpath) then Cmd.FileNotFound fpath
              else match Cmd.read_text w fpath with
                   | Some text => Cmd.DiffShown fpath text len block
                   | None => Cmd.DiffError
                   end)).
Proof.
  intros H len block.
  assert (Hi : Cmd.item (Cmd.CODE_BLOCKS s) (Cmd.last_idx s) = block)
    by (apply item_last; exact H).
  assert (Hr : Cmd.in_range (Cmd.CODE_BLOCKS s) (Cmd.last_idx s) = true)
    by (apply in_range_last; exact H).
  assert (Hl : (Cmd.last_idx s + 1 = len)%Z) by (unfold Cmd.last_idx, len; lia).
  assert (Hm : forall (A : Type) (a b : A),
             match Cmd.CODE_BLOCKS s with [] => a | _ :: _ => b end = b).
  { intros A a b. destruct (Cmd.CODE_BLOCKS s); [contradiction | reflexivity]. }
  repeat split; try assumption.
  - unfold Cmd.cmd_copy. rewrite Hm, Hr, Hi, Hl.
    destruct (Cmd.darwin w); [|reflexivity]. now destruct (Cmd.pbcopy_ok w).
  - unfold Cmd.cmd_diff. destruct (negb (Cmd.path_exists w fpath)); [reflexivity|].
    rewrite Hm, Hr, Hi, Hl. now destruct (Cmd.read_text w fpath).
Qed.

Lemma default_block_is_last_witness :
  Cmd.cmd_copy Cmd.decimal (every_file "y") (sample_session ["a"; "b"; "c"]) []
  = (sample_session ["a"; "b"; "c"], Cmd.Handled (Cmd.Copied 3 "c"))
  /\ Cmd.cmd_diff Cmd.decimal (every_file "y") (sample_session ["a"; "b"; "c"]) ["f.py"]
     = (sample_session ["a"; "b"; "c"], Cmd.Handled (Cmd.DiffShown "f.py" "y" 3 "c")).
Proof.
  destruct (default_block_is_last Cmd.decimal (every_file "y")
              (sample_session ["a"; "b"; "c"]) "f.py" ltac:(discriminate))
    as (_ & _ & C & D).
  split; [exact C | exact D].
Defined.

(** ** The highlighter only puts colour sequences in *)

Lemma code_shape (k : string) :
  In k codes -> exists k', k = String esc k' /\ contains_char esc k' = false.
Proof.
  intros H. repeat (destruct H as [<-|H]; [eexists; split; reflexivity|]).
  destruct H.
Qed.

Lemma strip_code (k s : string) :
  In k codes -> Highlight.strip_ansi (k ++ s) = Highlight.strip_ansi s.
Proof.
  intros H. repeat (destruct H as [<-|H]; [reflexivity|]). destruct H.
Qed.

(** Removing the colour sequences from a marked text gives the plain text. *)
Lemma strip_marked (plain shown : string) :
  Marked plain shown -> Highlight.strip_ansi shown = plain.
Proof.
  induction 1 as [|c o s Hc _ IH|k o s Hk _ IH].
  - reflexivity.
  - unfold Highlight.strip_ansi in *. cbn [Highlight.strip_from].
    destruct (Ascii.eqb_spec c esc) as [->|_]; [contradiction|]. now rewrite IH.
  - now rewrite strip_code.
Qed.

Lemma marked_plain (s : string) :
  contains_char esc s = false -> Marked s s.
Proof.
  induction s as [|c s IH]; intros H; [constructor|].
  cbn [contains_char] in H. apply orb_false_iff in H. destruct H as [Hc Hs].
  constructor; [|auto]. intros ->. rewrite Ascii.eqb_refl in Hc. discriminate.
Qed.

Lemma marked_app (o1 s1 o2 s2 : string) :
  Marked o1 s1 -> Marked o2 s2 -> Marked (o1 ++ o2) (s1 ++ s2).
Proof.
  induction 1 as [|c o s Hc _ IH|k o s Hk _ IH]; intros H2; cbn [append].
  - exact H2.
  - constructor; auto.
  - rewrite append_assoc. constructor; auto.
Qed.

Lemma marked_code_only (k : string) : In k codes -> Marked "" k.
Proof.
  intros H. rewrite <- (append_nil_r k). constructor; [exact H | constructor].
Qed.

(** A marked text that starts with an ordinary character. *)
Lemma marked_head (c : ascii) (o s : string) :
  c <> esc -> Marked o (String c s) ->
  exists o', o = String c o' /\ Marked o' s.
Proof.
  intros Hc H. inversion H as [|c' o' s' Hc' H' E1 E2|k o' s' Hk H' E1 E2]; subst.
  - eauto.
  - destruct (code_shape k Hk) as (k' & -> & _).
    cbn [append] in E2. inversion E2. subst. contradiction.
Qed.

(** Cutting a marked text after a stretch without escape characters. *)
Lemma marked_cut (a b o : string) :
  contains_char esc a = false -> Marked o (a ++ b) ->
  exists o2, o = a ++ o2 /\ Marked a a /\ Marked o2 b.
Proof.
  revert o. induction a as [|c a IH]; intros o Ha H.
  - exists o. repeat split; [constructor | exact H].
  - cbn [contains_char] in Ha. apply orb_false_iff in Ha. destruct Ha as [Hc Ha].
    assert (Hne : c <> esc).
    { intros ->. rewrite Ascii.eqb_refl in Hc. discriminate. }
    cbn [append] in H. destruct (marked_head c o _ Hne H) as (o' & -> & H').
    destruct (IH o' Ha H') as (o2 & -> & Ma & Mb).
    exists o2. repeat split; [constructor; assumption | exact Mb].
Qed.

Section Substitution.

Variable matcher : option ascii -> string -> option (string * string).
Variable color : string.

(** What the proof needs of a pattern: a match is a non-empty prefix, it cuts
    a marked text into marked pieces, and nothing matches inside a colour
    sequence. *)
Hypothesis match_prefix :
  forall prev s a b, matcher prev s = Some (a, b) -> s = a ++ b /\ a <> "".
Hypothesis match_marked :
  forall prev s a b o,
    Marked o s -> matcher prev s = Some (a, b) ->
    exists o1 o2, o = o1 ++ o2 /\ Marked o1 a /\ Marked o2 b.
Hypothesis match_not_in_code : forall k, In k codes -> passes_over matcher k.
Hypothesis color_code : In color codes.

Lemma re_sub_over (k : string) :
  passes_over matcher k ->
  forall fuel prev s,
    String.length k <= fuel ->
    Highlight.re_sub fuel matcher color prev (k ++ s)
    = k ++ Highlight.re_sub (fuel - String.length k) matcher color
             (Highlight.last_char prev k) s.
Proof.
  induction k as [|c k IH]; intros Hp fuel prev s Hf.
  - cbn. now rewrite Nat.sub_0_r.
  - destruct Hp as [H0 Hp]. destruct fuel as [|fuel]; [cbn in Hf; lia|].
    cbn [append Highlight.re_sub]. rewrite H0.
    rewrite (IH Hp) by (cbn in Hf; lia). reflexivity.
Qed.

(** Any fuel that covers the text gives the same result: a pass never stops
    for lack of fuel. *)
Lemma re_sub_fuel (n : nat) :
  forall s f1 f2 prev,
    String.length s <= n -> String.length s <= f1 -> String.length s <= f2 ->
    Highlight.re_sub f1 matcher color prev s
    = Highlight.re_sub f2 matcher color prev s.
Proof.
  induction n as [|n IH]; intros s f1 f2 prev Hn H1 H2.
  - destruct s; [|cbn in Hn; lia]. now destruct f1, f2.
  - destruct s as [|c r]; [now destruct f1, f2|].
    destruct f1 as [|f1]; [cbn in H1; lia|].
    destruct f2 as [|f2]; [cbn in H2; lia|].
    cbn [Highlight.re_sub].
    destruct (matcher prev (String c r)) as [[a b]|] eqn:Em.
    + destruct (match_prefix _ _ _ _ Em) as [Es Ha].
      assert (Hb : String.length b < String.length (String c r)).
      { rewrite Es, length_append. destruct a; [contradiction|cbn; lia]. }
      do 3 f_equal. apply IH; lia.
    + f_equal. cbn in Hn, H1, H2. apply IH; lia.
Qed.

Lemma re_sub_marked (n : nat) :
  forall s, String.length s <= n ->
  forall fuel prev o,
    String.length s <= fuel -> Marked o s ->
    Marked o (Highlight.re_sub fuel matcher color prev s).
Proof.
  induction n as [|n IH]; intros s Hn fuel prev o Hf H.
  - destruct s; [|cbn in Hn; lia]. destruct fuel; exact H.
  - inversion H as [|c o' s' Hc H' E1 E2|k o' s' Hk H' E1 E2]; subst.
    + destruct fuel; constructor.
    + destruct fuel as [|fuel]; [cbn in Hf; lia|]. cbn [Highlight.re_sub].
      destruct (matcher prev (String c s')) as [[a b]|] eqn:Em.
      * destruct (match_prefix _ _ _ _ Em) as [Es Ha].
        destruct (match_marked _ _ _ _ _ H Em) as (o1 & o2 & -> & M1 & M2).
        assert (Hb : String.length b < String.length (String c s')).
        { rewrite Es, length_append. destruct a; [contradiction|cbn; lia]. }
        apply Marked_code; [exact color_code|].
        apply marked_app; [exact M1|].
        apply Marked_code; [now left|].
        apply IH; [lia | lia | exact M2].
      * constructor; [exact Hc|]. cbn in Hn, Hf. apply IH; [lia | lia | exact H'].
    + destruct (code_shape k Hk) as (k' & Ek & _).
      assert (Hk1 : 1 <= String.length k) by (subst k; cbn; lia).
      rewrite length_append in Hn, Hf.
      rewrite (re_sub_over k (match_not_in_code k Hk)) by lia.
      constructor; [exact Hk|]. apply IH; [lia | lia | exact H'].
Qed.

(** One pass of [re.sub] keeps a marked text marked. *)
Lemma sub_marked (o s : string) :
  Marked o s -> Marked o (Highlight.sub matcher color s).
Proof.
  intros H. unfold Highlight.sub.
  apply (re_sub_marked (String.length s)); [lia | lia | exact H].
Qed.

End Substitution.

(** *** Quoted strings *)

Lemma until_quote_prefix (q : ascii) (r a b : string) :
  Highlight.until_quote q r = Some (a, b) -> r = a ++ b /\ a <> "".
Proof.
  revert a b. induction r as [|c r IH]; intros a b H; cbn in H; [discriminate|].
  destruct (Ascii.eqb c q).
  - inversion H; subst. split; [reflexivity | discriminate].
  - destruct (Ascii.eqb c nl); [discriminate|].
    destruct (Highlight.until_quote q r) as [[a' b']|]; [|discriminate].
    inversion H; subst. destruct (IH a' b eq_refl) as [-> _].
    split; [reflexivity | discriminate].
Qed.

Lemma until_quote_over (q : ascii) (k s : string) :
  contains_char q k = false -> contains_char nl k = false ->
  Highlight.until_quote q (k ++ s)
  = match Highlight.until_quote q s with
    | Some (a, b) => Some (k ++ a, b)
    | None => None
    end.
Proof.
  induction k as [|c k IH]; intros Hq Hn.
  - cbn. now destruct (Highlight.until_quote q s) as [[? ?]|].
  - cbn [contains_char] in Hq, Hn.
    apply orb_false_iff in Hq. apply orb_false_iff in Hn.
    destruct Hq as [Hq Hq'], Hn as [Hn Hn'].
    cbn [append Highlight.until_quote]. rewrite Hq, Hn, (IH Hq' Hn').
    now destruct (Highlight.until_quote q s) as [[? ?]|].
Qed.

Lemma until_quote_marked (q : ascii) (o r : string) :
  q <> esc ->
  (forall k, In k codes -> contains_char q k = false) ->
  Marked o r ->
  forall a b, Highlight.until_quote q r = Some (a, b) ->
  exists o1 o2, o = o1 ++ o2 /\ Marked o1 a /\ Marked o2 b.
Proof.
  intros Hq Hk. induction 1 as [|c o s Hc H IH|k o s Hin H IH]; intros a b E.
  - discriminate E.
  - cbn in E. destruct (Ascii.eqb c q).
    + inversion E; subst. exists (String c ""), o.
      repeat split; [constructor; [exact Hc | constructor] | exact H].
    + destruct (Ascii.eqb c nl); [discriminate|].
      destruct (Highlight.until_quote q s) as [[a' b']|]; [|discriminate].
      inversion E; subst. destruct (IH a' b eq_refl) as (o1 & o2 & -> & M1 & M2).
      exists (String c o1), o2. repeat split; [constructor; assumption | exact M2].
  - rewrite until_quote_over in E.
    + destruct (Highlight.until_quote q s) as [[a' b']|]; [|discriminate].
      inversion E; subst. destruct (IH a' b eq_refl) as (o1 & o2 & -> & M1 & M2).
      exists o1, o2. repeat split; [constructor; assumption | exact M2].
    + auto.
    + clear - Hin. repeat (destruct Hin as [<-|Hin]; [reflexivity|]). destruct Hin.
Qed.

Lemma quoted_prefix (q : ascii) (prev : option ascii) (s a b : string) :
  Highlight.match_quoted q prev s = Some (a, b) -> s = a ++ b /\ a <> "".
Proof.
  destruct s as [|c r]; cbn; [discriminate|].
  destruct (Ascii.eqb c q); [|discriminate].
  destruct (Highlight.until_quote q r) as [[a' b']|] eqn:E; [|discriminate].
  intros H. inversion H; subst. destruct (until_quote_prefix _ _ _ _ E) as [-> _].
  split; [reflexivity | discriminate].
Qed.

Lemma quoted_marked (q : ascii) :
  q <> esc ->
  (forall k, In k codes -> contains_char q k = false) ->
  forall prev s a b o,
    Marked o s -> Highlight.match_quoted q prev s = Some (a, b) ->
    exists o1 o2, o = o1 ++ o2 /\ Marked o1 a /\ Marked o2 b.
Proof.
  intros Hq Hk prev s a b o M E. destruct s as [|c r]; cbn in E; [discriminate|].
  destruct (Ascii.eqb_spec c q) as [->|]; [|discriminate].
  destruct (Highlight.until_quote q r) as [[a' b']|] eqn:Eu; [|discriminate].
  inversion E; subst. destruct (marked_head q o r Hq M) as (o' & -> & M').
  destruct (until_quote_marked q o' r Hq Hk M' a' b Eu) as (o1 & o2 & -> & M1 & M2).
  exists (String q o1), o2. repeat split; [constructor; assumption | exact M2].
Qed.

Lemma quoted_not_in_code (q : ascii) (k : string) :
  contains_char q k = false -> passes_over (Highlight.match_quoted q) k.
Proof.
  induction k as [|c k IH]; intros H; [exact I|].
  cbn [contains_char] in H. apply orb_false_iff in H. destruct H as [Hc Hk].
  split; [|auto]. intros prev s. cbn. now rewrite Hc.
Qed.

(** *** Keywords *)

Lemma strip_prefix_some (p s r : string) :
  strip_prefix p s = Some r -> s = p ++ r.
Proof.
  revert s. induction p as [|a p IH]; intros s H; cbn in H.
  - now inversion H.
  - destruct s as [|b s]; [discriminate|].
    destruct (Ascii.eqb_spec a b) as [->|]; [|discriminate].
    cbn. now rewrite (IH s H).
Qed.

Lemma keywords_plain (kw : string) :
  In kw Highlight.KEYWORDS -> contains_char esc kw = false /\ kw <> "".
Proof.
  intros H.
  repeat (destruct H as [<-|H]; [split; [reflexivity | discriminate]|]).
  destruct H.
Qed.

Lemma first_keyword_none (c : ascii) (r : string) (kws : list string) :
  forallb (fun kw => match kw with
                     | "" => false
                     | String d _ => negb (Ascii.eqb d c)
                     end) kws = true ->
  forall (is_word : ascii -> bool),
    Highlight.first_keyword is_word kws (String c r) = None.
Proof.
  intros H is_word. induction kws as [|kw kws IH]; [reflexivity|].
  cbn [forallb] in H. apply andb_true_iff in H. destruct H as [Hk Hr].
  cbn [Highlight.first_keyword]. destruct kw as [|d kw]; [discriminate|].
  cbn [strip_prefix]. apply negb_true_iff in Hk. rewrite Hk. auto.
Qed.

Section Classes.

Variable is_word : ascii -> bool.
Variable is_digit : ascii -> bool.

(** On ASCII, [\w] is a letter, a digit or the underscore and [\d] is a
    digit. *)
Hypothesis word_ascii :
  forall c, nat_of_ascii c < 128 -> is_word c = Highlight.ascii_word c.
Hypothesis digit_ascii :
  forall c, nat_of_ascii c < 128 -> is_digit c = Highlight.ascii_digit c.

Lemma first_keyword_prefix (kws : list string) (s a b : string) :
  Highlight.first_keyword is_word kws s = Some (a, b) ->
  In a kws /\ s = a ++ b.
Proof.
  induction kws as [|kw kws IH]; cbn; [discriminate|].
  destruct (strip_prefix kw s) as [rest|] eqn:E.
  - destruct (Highlight.boundary is_word _ _).
    + intros H. inversion H; subst. split; [now left | now apply strip_prefix_some].
    + intros H. destruct (IH H). auto.
  - intros H. destruct (IH H). auto.
Qed.

Lemma keyword_prefix (prev : option ascii) (s a b : string) :
  Highlight.match_keyword is_word prev s = Some (a, b) -> s = a ++ b /\ a <> "".
Proof.
  unfold Highlight.match_keyword. destruct (Highlight.boundary is_word _ _); [|discriminate].
  intros H. destruct (first_keyword_prefix _ _ _ _ H) as [Hin ->].
  split; [reflexivity | apply (keywords_plain a Hin)].
Qed.

Lemma keyword_marked (prev : option ascii) (s a b o : string) :
  Marked o s -> Highlight.match_keyword is_word prev s = Some (a, b) ->
  exists o1 o2, o = o1 ++ o2 /\ Marked o1 a /\ Marked o2 b.
Proof.
  unfold Highlight.match_keyword. destruct (Highlight.boundary is_word _ _); [|discriminate].
  intros M H. destruct (first_keyword_prefix _ _ _ _ H) as [Hin ->].
  destruct (marked_cut a b o (proj1 (keywords_plain a Hin)) M) as (o2 & -> & Ma & Mb).
  eauto.
Qed.

Lemma keyword_not_in_code (k : string) :
  all_chars starts_no_keyword k = true ->
  passes_over (Highlight.match_keyword is_word) k.
Proof.
  induction k as [|c k IH]; intros H; [exact I|].
  cbn [all_chars] in H. apply andb_true_iff in H. destruct H as [Hc Hk].
  split; [|auto]. intros prev s. unfold Highlight.match_keyword.
  rewrite (first_keyword_none c _ _ Hc). now destruct (Highlight.boundary _ _ _).
Qed.

(** *** Numbers *)

Lemma digits_prefix (s a b : string) :
  Highlight.digits_then_boundary is_word is_digit s = Some (a, b) ->
  s = a ++ b /\ a <> "" /\ all_chars is_digit a = true.
Proof.
  revert a b. induction s as [|c r IH]; intros a b H; cbn in H; [discriminate|].
  destruct (is_digit c) eqn:Ec; [|discriminate].
  destruct (Highlight.digits_then_boundary is_word is_digit r) as [[a' b']|].
  - inversion H; subst. destruct (IH a' b eq_refl) as (-> & _ & Hd).
    repeat split; [discriminate | cbn; now rewrite Ec].
  - destruct (Highlight.boundary is_word _ _); [|discriminate].
    inversion H; subst. repeat split; [discriminate | cbn; now rewrite Ec].
Qed.

Lemma esc_not_digit : is_digit esc = false.
Proof. rewrite digit_ascii by (cbn; lia). reflexivity. Qed.

Lemma digits_plain (a : string) :
  all_chars is_digit a = true -> contains_char esc a = false.
Proof.
  induction a as [|c a IH]; intros H; [reflexivity|].
  cbn [all_chars] in H. apply andb_true_iff in H. destruct H as [Hc Ha].
  cbn [contains_char]. rewrite (IH Ha), orb_false_r.
  destruct (Ascii.eqb_spec c esc) as [->|]; [|reflexivity].
  rewrite esc_not_digit in Hc. discriminate.
Qed.

Lemma number_prefix (prev : option ascii) (s a b : string) :
  Highlight.match_number is_word is_digit prev s = Some (a, b) ->
  s = a ++ b /\ a <> "".
Proof.
  unfold Highlight.match_number. destruct (Highlight.boundary is_word _ _); [|discriminate].
  intros H. destruct (digits_prefix _ _ _ H) as (E & N & _). auto.
Qed.

Lemma number_marked (prev : option ascii) (s a b o : string) :
  Marked o s -> Highlight.match_number is_word is_digit prev s = Some (a, b) ->
  exists o1 o2, o = o1 ++ o2 /\ Marked o1 a /\ Marked o2 b.
Proof.
  unfold Highlight.match_number. destruct (Highlight.boundary is_word _ _); [|discriminate].
  intros M H. destruct (digits_prefix _ _ _ H) as (-> & _ & Hd).
  destruct (marked_cut a b o (digits_plain a Hd) M) as (o2 & -> & Ma & Mb).
  eauto.
Qed.

Lemma digits_stop (c : ascii) (r : string) :
  is_digit c = false ->
  Highlight.digits_then_boundary is_word is_digit (String c r) = None.
Proof. intros H. cbn. now rewrite H. Qed.

Lemma digits_no_boundary (c d : ascii) (r : string) :
  is_word c = true -> is_word d = true ->
  Highlight.digits_then_boundary is_word is_digit (String d r) = None ->
  Highlight.digits_then_boundary is_word is_digit (String c (String d r)) = None.
Proof.
  intros Hc Hd H. cbn [Highlight.digits_then_boundary] in *.
  destruct (is_digit c); [|reflexivity]. rewrite H.
  unfold Highlight.boundary. cbn [Highlight.first_char]. now rewrite Hc, Hd.
Qed.

Lemma number_not_in_code (k : string) :
  In k codes -> passes_over (Highlight.match_number is_word is_digit) k.
Proof.
  assert (D : forall c, nat_of_ascii c < 128 -> Highlight.ascii_digit c = false ->
                        is_digit c = false).
  { intros c Hc Hd. now rewrite digit_ascii. }
  assert (W : forall c, nat_of_ascii c < 128 -> Highlight.ascii_word c = true ->
                        is_word c = true).
  { intros c Hc Hw. now rewrite word_ascii. }
  assert (N : forall prev s,
             Highlight.digits_then_boundary is_word is_digit s = None ->
             Highlight.match_number is_word is_digit prev s = None).
  { intros prev s H. unfold Highlight.match_number. rewrite H.
    now destruct (Highlight.boundary _ _ _). }
  intros H.
  repeat (destruct H as [<-|H];
          [cbn [passes_over Highlight.RESET Highlight.YELLOW Highlight.BLUE
                Highlight.CYAN Highlight.GRAY append];
           repeat split; intros prev s; apply N;
           repeat first
             [ apply digits_stop; apply D; [cbn; lia | reflexivity]
             | apply digits_no_boundary;
               [apply W; [cbn; lia | reflexivity]
               |apply W; [cbn; lia | reflexivity]|] ]
          |]).
  destruct H.
Qed.

(** *** The four passes and the comment *)

Lemma highlight_text_marked (o s : string) :
  Marked o s -> Marked o (Highlight.highlight_code_text is_word is_digit s).
Proof.
  intros H. unfold Highlight.highlight_code_text.
  apply sub_marked.
  { apply number_prefix. } { apply number_marked. } { apply number_not_in_code. }
  { cbn. tauto. }
  apply sub_marked.
  { apply keyword_prefix. } { apply keyword_marked. }
  { intros k Hk. apply keyword_not_in_code.
    repeat (destruct Hk as [<-|Hk]; [reflexivity|]). destruct Hk. }
  { cbn. tauto. }
  assert (Q : forall q, q <> esc ->
                (forall k, In k codes -> contains_char q k = false) ->
                forall o s, Marked o s ->
                Marked o (Highlight.sub (Highlight.match_quoted q) Highlight.YELLOW s)).
  { intros q Hq Hk o' s' M. apply sub_marked.
    - apply quoted_prefix.
    - apply quoted_marked; assumption.
    - intros k Hin. apply quoted_not_in_code. auto.
    - cbn. tauto.
    - exact M. }
  apply Q.
  { discriminate. }
  { intros k Hk. repeat (destruct Hk as [<-|Hk]; [reflexivity|]). destruct Hk. }
  apply Q.
  { discriminate. }
  { intros k Hk. repeat (destruct Hk as [<-|Hk]; [reflexivity|]). destruct Hk. }
  exact H.
Qed.

Lemma contains_char_app (c : ascii) (a b : string) :
  contains_char c (a ++ b) = contains_char c a || contains_char c b.
Proof.
  induction a as [|d a IH]; cbn; [reflexivity|]. now rewrite IH, orb_assoc.
Qed.

Lemma highlight_line_marked (line : string) :
  contains_char esc line = false ->
  Marked line (Highlight.highlight_code_line is_word is_digit line).
Proof.
  intros H. unfold Highlight.highlight_code_line.
  destruct (contains_char "#" line); [|now apply highlight_text_marked, marked_plain].
  destruct (split_once "#" line) as [[code comment]|] eqn:E;
    [|now apply highlight_text_marked, marked_plain].
  destruct (split_once_some _ _ _ _ E) as [-> _].
  rewrite contains_char_app in H. apply orb_false_iff in H. destruct H as [Hc Hm].
  apply marked_app; [now apply highlight_text_marked, marked_plain|].
  apply Marked_code; [cbn; tauto|].
  change (String "#" comment) with ("#" ++ comment).
  rewrite <- (append_nil_r (String "#" comment)) at 1.
  rewrite <- (append_assoc "#" comment Highlight.RESET).
  apply marked_app; [now apply marked_plain | apply marked_code_only; now left].
Qed.

End Classes.

(** C5, as stated, fails: a line that already holds a colour sequence comes
    back from the highlighter as it is, and loses the sequence when the colour
    sequences are deleted. *)
Lemma strip_of_coloured_line :
  Highlight.highlight_code_line Highlight.ascii_word Highlight.ascii_digit
    ("x" ++ Highlight.RESET)
  = "x" ++ Highlight.RESET
  /\ Highlight.strip_ansi
       (Highlight.highlight_code_line Highlight.ascii_word Highlight.ascii_digit
          ("x" ++ Highlight.RESET))
     <> "x" ++ Highlight.RESET.
Proof. split; [reflexivity|]. vm_compute. intros H. discriminate H. Qed.

(** C5, amended: for every input line without an escape character,
    [highlight_code_line] followed by the deletion of every colour sequence
    gives back exactly the line: highlighting only puts colour sequences in,
    and drops, reorders or repeats no visible character.  (Whatever the
    Unicode tables say about [\w] and [\d] outside ASCII.) *)
Theorem highlight_then_strip (is_word is_digit : ascii -> bool) (line : string) :
  (forall c, nat_of_ascii c < 128 -> is_word c = Highlight.ascii_word c) ->
  (forall c, nat_of_ascii c < 128 -> is_digit c = Highlight.ascii_digit c) ->
  contains_char esc line = false ->
  Highlight.strip_ansi (Highlight.highlight_code_line is_word is_digit line) = line.
Proof.
  intros Hw Hd H. apply strip_marked. now apply highlight_line_marked.
Qed.

Lemma highlight_then_strip_witness :
  Highlight.strip_ansi
    (Highlight.highlight_code_line Highlight.ascii_word Highlight.ascii_digit
       "x = 1 # set value")
  = "x = 1 # set value".
Proof.
  exact (highlight_then_strip Highlight.ascii_word Highlight.ascii_digit
           "x = 1 # set value" (fun _ _ => eq_refl) (fun _ _ => eq_refl) eq_refl).
Defined.

(* ================================================================== *)
(** * Further properties of the stream processor *)

(** ** What the raw scanner keeps true *)

Lemma lines_of_complete (s : string) :
  Forall complete_line (fst (lines_of s)).
Proof.
  induction s as [|c r IH]; cbn; [constructor|].
  destruct (lines_of r) as [ls b]. cbn [fst] in IH.
  destruct (Ascii.eqb_spec c nl) as [->|Hne]; cbn [fst].
  - constructor; [|exact IH]. exists "". split; reflexivity.
  - destruct ls as [|l ls']; cbn [fst]; [constructor|].
    inversion IH as [|? ? (a & -> & Ha) Hls]; subst.
    constructor; [|exact Hls]. exists (String c a). split; [reflexivity|].
    cbn. destruct (Ascii.eqb_spec c nl); [contradiction | exact Ha].
Qed.

Lemma settled_toggle (st : Raw.state) : settled st -> settled (Raw.toggle st).
Proof.
  intros (Hb & Hl & Ht). unfold Raw.toggle.
  destruct (Raw.in_code_block st) eqn:E.
  - repeat split; constructor.
  - destruct (Ht eq_refl) as [Eb Ec]. repeat split; cbn; assumption.
Qed.

Lemma settled_feed (st : Raw.state) (p : string) :
  settled st -> settled (Raw.feed st p).
Proof.
  intros H. destruct (nonempty p) eqn:Hp.
  2:{ apply nonempty_false in Hp. now subst. }
  destruct (Raw.in_code_block st) eqn:E.
  - rewrite (feed_code st p E Hp). destruct H as (Hb & Hl & Ht).
    repeat split; cbn; try discriminate.
    + apply lines_of_rest_no_nl.
    + apply Forall_app. split; [exact Hl | apply lines_of_complete].
  - now rewrite (feed_text st p E).
Qed.

Lemma settled_steps (ps : list string) (st : Raw.state) :
  settled st -> settled (steps st ps).
Proof.
  revert st. induction ps as [|p ps IH]; intros st H; [exact H|].
  cbn. apply IH. now apply settled_feed, settled_toggle.
Qed.

Lemma settled_on_delta (st : Raw.state) (d : string) :
  settled st -> settled (Raw.on_delta st d).
Proof.
  intros H. rewrite on_delta_eq.
  assert (S : settled (Raw.process_parts st (split_fence d))).
  { destruct (split_fence d) as [|p ps]; [exact H|].
    change (Raw.process_parts st (p :: ps)) with (steps (Raw.feed st p) ps).
    now apply settled_steps, settled_feed. }
  exact S.
Qed.

(** X1: whatever deltas have arrived, the raw loop has no newline left in its
    line buffer, every entry collected for the open block is one complete
    line, and outside a block the buffer and the collected lines are empty. *)
Theorem raw_loop_settled (ds : list string) :
  contains_char nl (Raw.buffer (scanned ds)) = false
  /\ Forall complete_line (Raw.current_block_content (scanned ds))
  /\ (Raw.in_code_block (scanned ds) = false ->
      Raw.buffer (scanned ds) = ""
      /\ Raw.current_block_content (scanned ds) = []).
Proof.
  unfold scanned.
  assert (H : forall st, settled st -> settled (fold_left Raw.on_delta ds st)).
  { induction ds as [|d ds IH]; intros st Hs; [exact Hs|].
    cbn. apply IH. now apply settled_on_delta. }
  apply (H Raw.init). repeat split; constructor.
Qed.

(** ** Captured blocks stay *)

Lemma blocks_toggle (st : Raw.state) :
  exists more, Raw.CODE_BLOCKS (Raw.toggle st) = (Raw.CODE_BLOCKS st ++ more)%list.
Proof.
  unfold Raw.toggle. destruct (Raw.in_code_block st); cbn; unfold snoc.
  - eauto.
  - exists []. now rewrite app_nil_r.
Qed.

Lemma blocks_feed (st : Raw.state) (p : string) :
  Raw.CODE_BLOCKS (Raw.feed st p) = Raw.CODE_BLOCKS st.
Proof.
  unfold Raw.feed. destruct (nonempty p); [|reflexivity].
  destruct (Raw.in_code_block st); [|reflexivity].
  now destruct (Raw.drain _ _ _).
Qed.

Lemma blocks_steps (ps : list string) (st : Raw.state) :
  exists more, Raw.CODE_BLOCKS (steps st ps) = (Raw.CODE_BLOCKS st ++ more)%list.
Proof.
  revert st. induction ps as [|p ps IH]; intros st.
  - exists []. cbn. now rewrite app_nil_r.
  - cbn. destruct (IH (Raw.feed (Raw.toggle st) p)) as [m1 E1].
    destruct (blocks_toggle st) as [m2 E2].
    fold (steps (Raw.feed (Raw.toggle st) p) ps).
    rewrite E1, blocks_feed, E2, <- app_assoc. eauto.
Qed.

Lemma blocks_on_delta (st : Raw.state) (d : string) :
  exists more, Raw.CODE_BLOCKS (Raw.on_delta st d) = (Raw.CODE_BLOCKS st ++ more)%list.
Proof.
  rewrite on_delta_eq. cbn [set_text Raw.CODE_BLOCKS].
  destruct (split_fence d) as [|p ps].
  - exists []. cbn. now rewrite app_nil_r.
  - change (Raw.process_parts st (p :: ps)) with (steps (Raw.feed st p) ps).
    destruct (blocks_steps ps (Raw.feed st p)) as [m E].
    rewrite E, blocks_feed. eauto.
Qed.

Lemma blocks_fold (ds : list string) (st : Raw.state) :
  exists more,
    Raw.CODE_BLOCKS (fold_left Raw.on_delta ds st) = (Raw.CODE_BLOCKS st ++ more)%list.
Proof.
  revert st. induction ds as [|d ds IH]; intros st.
  - exists []. cbn. now rewrite app_nil_r.
  - cbn. destruct (IH (Raw.on_delta st d)) as [m1 E1].
    destruct (blocks_on_delta st d) as [m2 E2].
    rewrite E1, E2, <- app_assoc. eauto.
Qed.

Lemma blocks_flush (st : Raw.state) :
  exists more, Raw.CODE_BLOCKS (Raw.flush st) = (Raw.CODE_BLOCKS st ++ more)%list.
Proof.
  unfold Raw.flush. destruct (_ && _); cbn; unfold snoc.
  - eauto.
  - exists []. now rewrite app_nil_r.
Qed.

(** X2: a block once captured by the raw path is never changed or removed:
    whatever deltas follow, the final [CODE_BLOCKS] starts with the blocks
    captured so far, in the same order. *)
Theorem captured_blocks_stay (ds later : list string) :
  exists more,
    Raw.CODE_BLOCKS (Raw.run (ds ++ later))
    = (Raw.CODE_BLOCKS (scanned ds) ++ more)%list.
Proof.
  unfold Raw.run, scanned. rewrite fold_left_app.
  destruct (blocks_flush
              (fold_left Raw.on_delta later (fold_left Raw.on_delta ds Raw.init)))
    as [m1 E1].
  destruct (blocks_fold later (fold_left Raw.on_delta ds Raw.init)) as [m2 E2].
  rewrite E1, E2, <- app_assoc. eauto.
Qed.

(** ** Markers and blocks *)

Lemma half_succ (k : nat) :
  S k / 2 = if Nat.odd k then S (k / 2) else k / 2.
Proof.
  destruct (Nat.odd k) eqn:E.
  - apply Nat.odd_spec in E. destruct E as [m ->].
    replace (S (2 * m + 1)) with ((m + 1) * 2) by lia.
    rewrite Nat.div_mul by lia.
    replace (2 * m + 1) with (1 + m * 2) by lia.
    rewrite Nat.div_add by lia. cbn. lia.
  - assert (Ev : Nat.even k = true) by (rewrite <- Nat.negb_odd, E; reflexivity).
    apply Nat.even_spec in Ev. destruct Ev as [m ->].
    replace (S (2 * m)) with (1 + m * 2) by lia.
    rewrite Nat.div_add by lia.
    replace (2 * m) with (m * 2) by lia. rewrite Nat.div_mul by lia. reflexivity.
Qed.

Lemma counted_toggle (k : nat) (st : Raw.state) :
  counted k st -> counted (S k) (Raw.toggle st).
Proof.
  intros [Hc Hl]. unfold counted. rewrite half_succ, Nat.odd_succ, <- Nat.negb_odd.
  unfold Raw.toggle. rewrite Hc.
  destruct (Nat.odd k); cbn [Raw.in_code_block Raw.CODE_BLOCKS negb].
  - split; [reflexivity|]. unfold snoc. rewrite length_app, Hl. cbn [List.length]. lia.
  - split; [reflexivity | exact Hl].
Qed.

Lemma counted_feed (k : nat) (st : Raw.state) (p : string) :
  counted k st -> counted k (Raw.feed st p).
Proof.
  intros [Hc Hl]. unfold counted. rewrite blocks_feed. split; [|exact Hl].
  unfold Raw.feed. destruct (nonempty p); [|exact Hc].
  destruct (Raw.in_code_block st) eqn:E; [|now rewrite E].
  destruct (Raw.drain _ _ _). cbn. now rewrite <- Hc.
Qed.

Lemma counted_steps (ps : list string) (k : nat) (st : Raw.state) :
  counted k st -> counted (k + List.length ps) (steps st ps).
Proof.
  revert k st. induction ps as [|p ps IH]; intros k st H.
  - cbn. now rewrite Nat.add_0_r.
  - cbn [List.length]. replace (k + S (List.length ps)) with (S k + List.length ps) by lia.
    apply (IH (S k)). now apply counted_feed, counted_toggle.
Qed.

Lemma counted_on_delta (k : nat) (st : Raw.state) (d : string) :
  counted k st -> counted (k + markers_in d) (Raw.on_delta st d).
Proof.
  intros H. rewrite on_delta_eq. unfold markers_in.
  destruct (split_fence_nonempty d) as (p & ps & ->).
  change (Raw.process_parts st (p :: ps)) with (steps (Raw.feed st p) ps).
  replace (List.length (p :: ps) - 1) with (List.length ps) by (cbn [List.length]; lia).
  apply (counted_steps ps k (Raw.feed st p)). now apply counted_feed.
Qed.

Lemma counted_fold (ds : list string) (k : nat) (st : Raw.state) :
  counted k st -> counted (k + markers_seen ds) (fold_left Raw.on_delta ds st).
Proof.
  revert k st. induction ds as [|d ds IH]; intros k st H.
  - cbn. now rewrite Nat.add_0_r.
  - cbn [markers_seen fold_right fold_left]. rewrite Nat.add_assoc.
    apply IH. now apply counted_on_delta.
Qed.

(** X3: the raw loop is inside a block exactly when it has seen an odd
    number of markers, and it has captured one block for every two markers
    seen; when the number is even the final flush adds nothing, so
    [CODE_BLOCKS] ends with exactly half as many blocks as markers. *)
Theorem blocks_per_marker_pair (ds : list string) :
  Raw.in_code_block (scanned ds) = Nat.odd (markers_seen ds)
  /\ List.length (Raw.CODE_BLOCKS (scanned ds)) = markers_seen ds / 2
  /\ (Nat.even (markers_seen ds) = true ->
      List.length (Raw.CODE_BLOCKS (Raw.run ds)) = markers_seen ds / 2).
Proof.
  destruct (counted_fold ds 0 Raw.init) as [Hc Hl]; [split; reflexivity|].
  cbn [Nat.add] in Hc, Hl. fold (scanned ds) in Hc, Hl.
  repeat split; try assumption.
  intros Ev. unfold Raw.run. fold (scanned ds). unfold Raw.flush.
  rewrite Hc, <- Nat.negb_even, Ev, andb_false_r. exact Hl.
Qed.

Lemma blocks_per_marker_pair_witness :
  List.length (Raw.CODE_BLOCKS (Raw.run cut_beside_marker)) = 1.
Proof.
  destruct (blocks_per_marker_pair cut_beside_marker) as (_ & _ & H).
  exact (H eq_refl).
Defined.

(** ** Block extraction of the Rich path *)

Lemma split_once_absent (c : ascii) (s : string) :
  contains_char c s = false -> split_once c s = None.
Proof.
  intros H. destruct (split_once c s) as [[a b]|] eqn:E; [|reflexivity].
  destruct (split_once_some _ _ _ _ E) as [-> _].
  rewrite contains_char_app in H. cbn in H. rewrite Ascii.eqb_refl in H.
  rewrite orb_true_r in H. discriminate H.
Qed.

(** X4: the Rich path captures a block only where a newline follows the
    opening marker: a response without any newline, such as a one-line answer
    with an inline fenced snippet, ends with an empty [CODE_BLOCKS]. *)
Theorem rich_needs_newline (s : string) :
  contains_char nl s = false -> block_matches s = [].
Proof.
  intros H. unfold block_matches. destruct (String.length s); [reflexivity|].
  cbn [findall_blocks].
  destruct (find_fence s) as [[a after_open]|] eqn:E; [|reflexivity].
  apply find_fence_some in E. subst s.
  rewrite !contains_char_app in H. apply orb_false_iff in H. destruct H as [_ H].
  apply orb_false_iff in H. destruct H as [_ H].
  now rewrite (split_once_absent nl after_open H).
Qed.

Lemma rich_needs_newline_witness :
  block_matches "Hello ```print(1)``` done" = [].
Proof. exact (rich_needs_newline "Hello ```print(1)``` done" eq_refl). Defined.

Lemma find_fence_before (s a b : string) :
  find_fence s = Some (a, b) -> marker_free a = true.
Proof.
  revert a b. induction s as [|c r IH]; intros a b H; [discriminate H|].
  destruct (marker_or_not (String c r)) as [E|[(r0 & E)|(c' & r' & E & Hno)]].
  - discriminate E.
  - rewrite E in H. cbn in H. inversion H; subst. reflexivity.
  - inversion E; subst c' r'. rewrite (find_fence_other c r Hno) in H.
    destruct (find_fence r) as [[a' b']|] eqn:Er; [|discriminate H].
    inversion H; subst. pose proof (IH a' b eq_refl) as Ha.
    apply find_fence_some in Er. subst r.
    unfold marker_free in *. rewrite find_fence_other.
    + destruct (find_fence a') as [[? ?]|]; [discriminate Ha | reflexivity].
    + intros r' Hr. destruct a' as [|c2 [|c3 a3]]; try discriminate Hr.
      cbn in Hr. inversion Hr; subst.
      apply (Hno (r' ++ FENCE ++ b)). reflexivity.
Qed.

(** X5: no block captured by the Rich path holds a marker. *)
Theorem rich_blocks_marker_free (s : string) :
  Forall (fun b => marker_free b = true) (block_matches s).
Proof.
  unfold block_matches. generalize (String.length s) as fuel.
  intros fuel. revert s. induction fuel as [|fuel IH]; intros s; [constructor|].
  cbn [findall_blocks].
  destruct (find_fence s) as [[a after_open]|]; [|constructor].
  destruct (split_once nl after_open) as [[info body_on]|]; [|constructor].
  destruct (find_fence body_on) as [[body rest]|] eqn:E; [|constructor].
  constructor; [now apply (find_fence_before body_on body rest) | apply IH].
Qed.

Lemma tight_tail (c : ascii) (p : string) :
  tight (String c p) = true -> tight p = true.
Proof.
  unfold tight. intros H. apply andb_true_iff in H. destruct H as [Hf He].
  destruct (marker_free_cons c p Hf) as [_ Hp]. rewrite Hp. cbn [andb].
  apply negb_true_iff in He. apply negb_true_iff.
  destruct (ends_tick p) eqn:E; [|reflexivity].
  now rewrite (ends_tick_String c p E) in He.
Qed.

(** The first marker of a text that starts with a tight stretch is the one
    after that stretch. *)
Lemma find_fence_tight (p rest : string) :
  tight p = true -> find_fence (p ++ FENCE ++ rest) = Some (p, rest).
Proof.
  induction p as [|c p IH]; intros H; [reflexivity|].
  pose proof (tight_tail c p H) as Hp.
  unfold tight in H. apply andb_true_iff in H. destruct H as [Hf He].
  apply negb_true_iff in He. destruct (marker_free_cons c p Hf) as [Hno _].
  change (String c p ++ FENCE ++ rest) with (String c (p ++ FENCE ++ rest)).
  rewrite find_fence_other; [now rewrite (IH Hp)|].
  intros r' Hr. destruct p as [|c2 [|c3 p3]]; cbn in Hr; inversion Hr; subst.
  - discriminate He.
  - discriminate He.
  - apply (Hno p3). reflexivity.
Qed.

Lemma split_once_at (c : ascii) (a b : string) :
  contains_char c a = false -> split_once c (a ++ String c b) = Some (a, b).
Proof.
  induction a as [|d a IH]; intros H; cbn.
  - now rewrite Ascii.eqb_refl.
  - cbn in H. apply orb_false_iff in H. destruct H as [Hd Ha].
    now rewrite Hd, (IH Ha).
Qed.

Lemma marker_free_suffix (a b : string) :
  marker_free (a ++ b) = true -> marker_free b = true.
Proof.
  induction a as [|c a IH]; intros H; [exact H|].
  apply IH. now destruct (marker_free_cons c (a ++ b) H).
Qed.

Lemma ends_tick_suffix (a b : string) :
  b <> "" -> ends_tick (a ++ b) = ends_tick b.
Proof.
  intros Hb. induction a as [|c a IH]; [reflexivity|].
  cbn [append ends_tick]. destruct (a ++ b) eqn:E; [|exact IH].
  destruct a; [contradiction | discriminate E].
Qed.

Lemma tight_suffix (a b : string) : tight (a ++ b) = true -> tight b = true.
Proof.
  unfold tight. intros H. apply andb_true_iff in H. destruct H as [Hf He].
  rewrite (marker_free_suffix a b Hf). destruct b as [|c b]; [reflexivity|].
  now rewrite <- (ends_tick_suffix a (String c b)) by discriminate.
Qed.

Lemma unsplit_cons (p q : string) (r : list string) :
  unsplit (p :: q :: r) = p ++ FENCE ++ unsplit (q :: r).
Proof. reflexivity. Qed.

Lemma rich_on_layout (segs : list (string * string * string)) :
  forall t0 fuel,
    parts_ok (parts_of t0 (map with_info segs)) = true ->
    Forall (fun seg => contains_char nl (info_of seg) = false) segs ->
    String.length (layout t0 (map with_info segs)) <= fuel ->
    findall_blocks fuel (layout t0 (map with_info segs)) = map body_of segs.
Proof.
  induction segs as [|[[info body] after] segs IH]; intros t0 fuel Hok Hinfo Hf.
  - cbn in *. destruct fuel; [reflexivity|]. cbn [findall_blocks].
    unfold marker_free in Hok. now destruct (find_fence t0).
  - unfold layout, parts_of in *. cbn [map with_info flat_map fst snd app] in *.
    rewrite !unsplit_cons in *.
    change (parts_ok (t0 :: (info ++ NL ++ body) :: after
                         :: flat_map (fun seg => [fst seg; snd seg]) (map with_info segs)))
      with (tight t0 && (tight (info ++ NL ++ body)
                         && parts_ok (after :: flat_map (fun seg => [fst seg; snd seg])
                                                        (map with_info segs)))) in Hok.
    apply andb_true_iff in Hok. destruct Hok as [Ht0 Hok].
    apply andb_true_iff in Hok. destruct Hok as [Hcode Hok].
    inversion Hinfo as [|? ? Hi Hrest]; subst. cbn in Hi.
    assert (Hbody : tight body = true).
    { apply (tight_suffix (info ++ NL) body). now rewrite append_assoc. }
    destruct fuel as [|fuel];
      [rewrite !length_append in Hf; cbn [FENCE NL String.length] in Hf; lia|].
    cbn [findall_blocks]. rewrite (find_fence_tight t0 _ Ht0).
    rewrite append_assoc. cbn [NL append].
    rewrite (split_once_at nl info _ Hi).
    rewrite (find_fence_tight body _ Hbody).
    cbn [map body_of fst snd]. f_equal.
    apply (IH after fuel Hok Hrest).
    rewrite !length_append in Hf. cbn [FENCE NL String.length] in Hf. lia.
Qed.

(** X6: on a balanced response whose blocks each start with an opening line
    (the text after the opening marker up to the first newline), the Rich
    path captures each block without that line and the raw path captures it
    with that line: a raw block is the opening line, a newline, and the Rich
    block. *)
Theorem opening_line_dropped (t0 : string) (segs : list (string * string * string)) :
  parts_ok (parts_of t0 (map with_info segs)) = true ->
  Forall (fun seg => contains_char nl (info_of seg) = false) segs ->
  let text := layout t0 (map with_info segs) in
  Rich.CODE_BLOCKS (Rich.run [text]) = map body_of segs
  /\ Raw.CODE_BLOCKS (Raw.run [text])
     = map (fun seg => info_of seg ++ NL ++ body_of seg) segs.
Proof.
  intros Hok Hinfo text. split.
  - rewrite rich_run. cbn [Rich.CODE_BLOCKS]. unfold text_of. rewrite join_single.
    unfold block_matches. now apply rich_on_layout.
  - unfold text. rewrite (run_layout t0 _ Hok). cbn [resting Raw.CODE_BLOCKS].
    rewrite map_map. apply map_ext. now intros [[info body] after].
Qed.

Lemma opening_line_dropped_witness :
  Rich.CODE_BLOCKS (Rich.run [layout "see " [("py" ++ NL ++ "x = 1" ++ NL, " done")]])
  = ["x = 1" ++ NL]
  /\ Raw.CODE_BLOCKS (Raw.run [layout "see " [("py" ++ NL ++ "x = 1" ++ NL, " done")]])
     = ["py" ++ NL ++ "x = 1" ++ NL].
Proof.
  apply (opening_line_dropped "see " [("py", "x = 1" ++ NL, " done")]);
    [reflexivity | repeat constructor].
Defined.

(** ** Blocks of a balanced response *)



(** ** Lines that do not count *)

Lemma loop_until_done {A : Type} (body : A -> string -> step A)
  (before after : list string) :
  (forall st, body st "data: [DONE]" = Break st) ->
  forall st, loop body st (before ++ "data: [DONE]" :: after) = loop body st before.
Proof.
  intros Hd. induction before as [|l before IH]; intros st; cbn [app loop].
  - now rewrite Hd.
  - destruct (body st l); [apply IH | reflexivity | reflexivity].
Qed.

Lemma rich_done (loads : string -> option json) (st : string * meters) :
  rich_line loads st "data: [DONE]" = Break st.
Proof. now destruct st. Qed.

Lemma raw_done (loads : string -> option json) (st : Raw.state * meters) :
  raw_line loads st "data: [DONE]" = Break st.
Proof. now destruct st. Qed.

(** X7: the line [data: [DONE]] ends the stream: whatever lines follow it are
    never read, and the call ends exactly as if the stream had stopped just
    before it (in both paths). *)
Theorem done_ends_stream (loads : string -> option json) (rich : bool)
  (g : globals) (before after : list string) :
  stream_completion loads rich g (Streaming (before ++ "data: [DONE]" :: after))
  = stream_completion loads rich g (Streaming before).
Proof.
  unfold stream_completion. destruct rich.
  - now rewrite (loop_until_done (rich_line loads) before after (rich_done loads)).
  - now rewrite (loop_until_done (raw_line loads) before after (raw_done loads)).
Qed.

Lemma loop_filter {A : Type} (body : A -> string -> step A) (keep : string -> bool)
  (lines : list string) :
  (forall st l, keep l = false -> body st l = Continue st) ->
  forall st, loop body st lines = loop body st (filter keep lines).
Proof.
  intros Hk. induction lines as [|l lines IH]; intros st; [reflexivity|].
  cbn [filter]. destruct (keep l) eqn:E; cbn [loop].
  - destruct (body st l); [apply IH | reflexivity | reflexivity].
  - rewrite (Hk st l E). apply IH.
Qed.

Lemma rich_passed_over (loads : string -> option json) (st : string * meters)
  (l : string) :
  negb (passed_over l) = false -> rich_line loads st l = Continue st.
Proof.
  intros H. apply negb_false_iff in H. destruct st as [fc m].
  unfold rich_line. unfold passed_over, is_data in H.
  destruct (negb (nonempty l)); [reflexivity|]. cbn [orb] in H.
  destruct (decode l) as [text|]; [|discriminate H].
  apply negb_true_iff in H. now rewrite H.
Qed.

Lemma raw_passed_over (loads : string -> option json) (st : Raw.state * meters)
  (l : string) :
  negb (passed_over l) = false -> raw_line loads st l = Continue st.
Proof.
  intros H. apply negb_false_iff in H. destruct st as [rs m].
  unfold raw_line. unfold passed_over, is_data in H.
  destruct (negb (nonempty l)); [reflexivity|]. cbn [orb] in H.
  destruct (decode l) as [text|]; [|discriminate H].
  apply negb_true_iff in H. now rewrite H.
Qed.

(** X8: empty keep-alive lines, and lines that decode as UTF-8 to a text
    that does not start with [data: ], can be taken out of the stream without
    changing how the call ends (in both paths).  A non-empty line that does
    not decode is not among them. *)
Theorem non_data_lines_ignored (loads : string -> option json) (rich : bool)
  (g : globals) (lines : list string) :
  stream_completion loads rich g (Streaming lines)
  = stream_completion loads rich g
      (Streaming (filter (fun l => negb (passed_over l)) lines)).
Proof.
  unfold stream_completion. destruct rich.
  - now rewrite (loop_filter (rich_line loads) _ lines (rich_passed_over loads)).
  - now rewrite (loop_filter (raw_line loads) _ lines (raw_passed_over loads)).
Qed.

(** ** A chunk that raises *)

Lemma raw_loop_prefix (loads : string -> option json) (good ds tail : list string) :
  Forall2 (carries loads) good ds ->
  forall rs m, exists m',
    loop (raw_line loads) (rs, m) (good ++ tail)
    = loop (raw_line loads) (fold_left Raw.on_delta ds rs, m') tail.
Proof.
  induction 1 as [|line d good ds Hc _ IH]; intros rs m; cbn [app loop fold_left].
  - eauto.
  - destruct (raw_line_carries loads line d rs m Hc) as [m1 ->]. apply IH.
Qed.

Lemma rich_loop_prefix (loads : string -> option json) (good ds tail : list string) :
  Forall2 (carries loads) good ds ->
  forall fc m, exists m',
    loop (rich_line loads) (fc, m) (good ++ tail)
    = loop (rich_line loads) (fold_left Rich.on_delta ds fc, m') tail.
Proof.
  induction 1 as [|line d good ds Hc _ IH]; intros fc m; cbn [app loop fold_left].
  - eauto.
  - destruct (rich_line_carries loads line d fc m Hc) as [m1 ->]. apply IH.
Qed.

(** X9: when, after lines that carried the deltas [ds], a data line decodes
    to a chunk from which the content cannot be read (no [choices], an empty
    [choices] list, a [delta] that is not an object), the raw path stops
    there and returns the text of [ds] with the reason ["error"], keeping the
    blocks closed so far but not flushing an open one; the Rich path raises
    the exception and leaves [CODE_BLOCKS] empty.  No later line is read. *)
Theorem chunk_error_stops_stream (loads : string -> option json) (g : globals)
  (good ds : list string) (bad : string) (rest : list string)
  (chunk : json) (e : exn) :
  Forall2 (carries loads) good ds ->
  yields loads bad chunk ->
  delta_of chunk = inr e ->
  (exists m,
     stream_completion loads false g (Streaming (good ++ bad :: rest))
     = (mkGlobals (Raw.CODE_BLOCKS (scanned ds)) m,
        Returned (text_of ds) (JStr "error")))
  /\ (exists m,
        stream_completion loads true g (Streaming (good ++ bad :: rest))
        = (mkGlobals [] m, Raised e)).
Proof.
  intros Hg Hy He.
  destruct (yields_line loads bad chunk Hy) as (Hn & Hdec & Hp & Hd & Hl).
  unfold stream_completion. split.
  - destruct (raw_loop_prefix loads good ds (bad :: rest) Hg Raw.init (counters g))
      as [m' ->].
    cbn [loop]. unfold raw_line. rewrite Hn, Hdec, Hp, Hd, Hl, He. cbn [negb].
    exists m'. fold (scanned ds). unfold scanned.
    now rewrite (full_content_fold ds Raw.init).
  - destruct (rich_loop_prefix loads good ds (bad :: rest) Hg "" (counters g))
      as [m' ->].
    cbn [loop]. unfold rich_line. rewrite Hn, Hdec, Hp, Hd, Hl, He. cbn [negb]. eauto.
Qed.

Lemma chunk_error_stops_stream_witness :
  exists m,
    stream_completion sample_loads false (mkGlobals ["old"] fresh)
      (Streaming ["data: " ++ content_payload "hi"; "data: {}";
                  "data: " ++ content_payload "hi"])
    = (mkGlobals [] m, Returned "hi" (JStr "error")).
Proof.
  apply (proj1 (chunk_error_stops_stream sample_loads (mkGlobals ["old"] fresh)
                  ["data: " ++ content_payload "hi"] ["hi"] "data: {}"
                  ["data: " ++ content_payload "hi"] (JObj []) KeyError
                  ltac:(repeat constructor; exists ("data: " ++ content_payload "hi");
                        repeat split; discriminate)
                  ltac:(exists "data: {}"; repeat split; discriminate)
                  eq_refl)).
Defined.

(** X28: a non-empty line whose bytes are not well-formed UTF-8 ends the
    stream, whatever its prefix: [line.decode] raises [UnicodeDecodeError]
    outside the per-line [try].  After lines that carried the deltas [ds] the
    raw path returns the text of [ds] with the reason ["error"], keeping the
    blocks closed so far; the Rich path raises the exception and leaves
    [CODE_BLOCKS] empty.  No later line is read. *)
Theorem undecodable_line_stops_stream (loads : string -> option json)
  (g : globals) (good ds : list string) (bad : string) (rest : list string) :
  Forall2 (carries loads) good ds ->
  nonempty bad = true ->
  decode bad = None ->
  (exists m,
     stream_completion loads false g (Streaming (good ++ bad :: rest))
     = (mkGlobals (Raw.CODE_BLOCKS (scanned ds)) m,
        Returned (text_of ds) (JStr "error")))
  /\ (exists m,
        stream_completion loads true g (Streaming (good ++ bad :: rest))
        = (mkGlobals [] m, Raised UnicodeDecodeError)).
Proof.
  intros Hg Hn Hdec. unfold stream_completion. split.
  - destruct (raw_loop_prefix loads good ds (bad :: rest) Hg Raw.init (counters g))
      as [m' ->].
    cbn [loop]. unfold raw_line. rewrite Hn, Hdec. cbn [negb].
    exists m'. fold (scanned ds). unfold scanned.
    now rewrite (full_content_fold ds Raw.init).
  - destruct (rich_loop_prefix loads good ds (bad :: rest) Hg "" (counters g))
      as [m' ->].
    cbn [loop]. unfold rich_line. rewrite Hn, Hdec. cbn [negb]. eauto.
Qed.

Lemma undecodable_line_stops_stream_witness :
  exists m,
    stream_completion sample_loads false (mkGlobals ["old"] fresh)
      (Streaming ["data: " ++ content_payload "hi"; String "255" "";
                  "data: " ++ content_payload "hi"])
    = (mkGlobals [] m, Returned "hi" (JStr "error")).
Proof.
  apply (proj1 (undecodable_line_stops_stream sample_loads (mkGlobals ["old"] fresh)
                  ["data: " ++ content_payload "hi"] ["hi"] (String "255" "")
                  ["data: " ++ content_payload "hi"]
                  ltac:(repeat constructor; exists ("data: " ++ content_payload "hi");
                        repeat split; discriminate)
                  eq_refl eq_refl)).
Defined.

(* ================================================================== *)
(** * Further properties of the highlighter *)

Lemma re_sub_untouched
  (matcher : option ascii -> string -> option (string * string))
  (color : string) (P : ascii -> bool) :
  (forall prev c r, P c = true -> matcher prev (String c r) = None) ->
  forall s fuel prev,
    all_chars P s = true -> Highlight.re_sub fuel matcher color prev s = s.
Proof.
  intros Hm. induction s as [|c r IH]; intros fuel prev H.
  - now destruct fuel.
  - destruct fuel as [|fuel]; [reflexivity|].
    cbn [all_chars] in H. apply andb_true_iff in H. destruct H as [Hc Hr].
    cbn [Highlight.re_sub]. now rewrite (Hm prev c r Hc), (IH fuel (Some c) Hr).
Qed.

Lemma all_chars_impl (P Q : ascii -> bool) (s : string) :
  (forall c, P c = true -> Q c = true) ->
  all_chars P s = true -> all_chars Q s = true.
Proof.
  intros H. induction s as [|c r IH]; [reflexivity|]. cbn [all_chars].
  intros E. apply andb_true_iff in E. destruct E as [Ec Er].
  now rewrite (H c Ec), (IH Er).
Qed.

Lemma all_chars_absent (P : ascii -> bool) (c : ascii) (s : string) :
  P c = false -> all_chars P s = true -> contains_char c s = false.
Proof.
  intros Hc. induction s as [|d r IH]; [reflexivity|]. cbn [all_chars contains_char].
  intros E. apply andb_true_iff in E. destruct E as [Ed Er]. rewrite (IH Er), orb_false_r.
  destruct (Ascii.eqb_spec d c) as [->|]; [|reflexivity].
  rewrite Hc in Ed. discriminate Ed.
Qed.

Lemma quoted_untouched (q : ascii) (s : string) :
  all_chars (fun c => negb (Ascii.eqb c q)) s = true ->
  Highlight.sub (Highlight.match_quoted q) Highlight.YELLOW s = s.
Proof.
  intros H. unfold Highlight.sub.
  apply (re_sub_untouched _ _ (fun c => negb (Ascii.eqb c q))); [|exact H].
  intros prev c r Hc. cbn. apply negb_true_iff in Hc. now rewrite Hc.
Qed.

(** The first letters of the keywords, seen through a test [P]. *)
Lemma starts_no_keyword_by (P : ascii -> bool) (c : ascii) :
  forallb (fun kw => match kw with
                     | "" => false
                     | String d _ => P d
                     end) Highlight.KEYWORDS = true ->
  P c = false -> starts_no_keyword c = true.
Proof.
  intros Hk Hc. unfold starts_no_keyword. rewrite forallb_forall in *.
  intros kw Hin. specialize (Hk kw Hin). destruct kw as [|d kw]; [discriminate Hk|].
  apply negb_true_iff. destruct (Ascii.eqb_spec d c) as [->|]; [|reflexivity].
  rewrite Hc in Hk. discriminate Hk.
Qed.

Section Colours.

Variable is_word : ascii -> bool.
Variable is_digit : ascii -> bool.

Hypothesis word_ascii :
  forall c, nat_of_ascii c < 128 -> is_word c = Highlight.ascii_word c.
Hypothesis digit_ascii :
  forall c, nat_of_ascii c < 128 -> is_digit c = Highlight.ascii_digit c.

Lemma keyword_heads_are_words :
  forallb (fun kw => match kw with
                     | "" => false
                     | String d _ => is_word d
                     end) Highlight.KEYWORDS = true.
Proof.
  apply forallb_forall. intros kw Hin.
  repeat (destruct Hin as [<-|Hin];
          [rewrite word_ascii by (cbn; lia); reflexivity|]).
  destruct Hin.
Qed.

Lemma keyword_heads_are_not_digits :
  forallb (fun kw => match kw with
                     | "" => false
                     | String d _ => negb (is_digit d)
                     end) Highlight.KEYWORDS = true.
Proof.
  apply forallb_forall. intros kw Hin.
  repeat (destruct Hin as [<-|Hin];
          [rewrite digit_ascii by (cbn; lia); reflexivity|]).
  destruct Hin.
Qed.

Lemma keyword_untouched (P : ascii -> bool) (s : string) :
  (forall c, P c = true -> starts_no_keyword c = true) ->
  all_chars P s = true ->
  Highlight.sub (Highlight.match_keyword is_word) Highlight.BLUE s = s.
Proof.
  intros HP H. unfold Highlight.sub.
  apply (re_sub_untouched _ _ P); [|exact H].
  intros prev c r Hc. unfold Highlight.match_keyword.
  rewrite (first_keyword_none c r _ (HP c Hc)).
  now destruct (Highlight.boundary _ _ _).
Qed.

Lemma number_untouched (s : string) :
  all_chars (fun c => negb (is_digit c)) s = true ->
  Highlight.sub (Highlight.match_number is_word is_digit) Highlight.CYAN s = s.
Proof.
  intros H. unfold Highlight.sub.
  apply (re_sub_untouched _ _ (fun c => negb (is_digit c))); [|exact H].
  intros prev c r Hc. unfold Highlight.match_number. cbn.
  apply negb_true_iff in Hc. rewrite Hc. now destruct (Highlight.boundary _ _ _).
Qed.

(** X10: a line made only of characters that are neither word characters,
    digits, quotes nor [#] (spaces, brackets, operators) comes back from the
    highlighter unchanged: no colour sequence is put in. *)
Theorem inert_line_unchanged (s : string) :
  all_chars (inert is_word is_digit) s = true ->
  Highlight.highlight_code_line is_word is_digit s = s.
Proof.
  intros H.
  assert (Hparts : forall c, inert is_word is_digit c = true ->
             is_word c = false /\ is_digit c = false
             /\ Ascii.eqb c dquote = false /\ Ascii.eqb c "'" = false
             /\ Ascii.eqb c "#" = false).
  { intros c Hc. unfold inert in Hc.
    repeat (apply andb_true_iff in Hc; destruct Hc as [Hc ?]).
    repeat split; now apply negb_true_iff. }
  assert (Hh : contains_char "#" s = false).
  { apply (all_chars_absent (inert is_word is_digit)); [|exact H].
    unfold inert. cbn. now rewrite !andb_false_r. }
  unfold Highlight.highlight_code_line. rewrite Hh.
  unfold Highlight.highlight_code_text.
  rewrite (quoted_untouched dquote s).
  2:{ apply (all_chars_impl (inert is_word is_digit) _ s); [|exact H]. intros c Hc.
      destruct (Hparts c Hc) as (_ & _ & E & _). now rewrite E. }
  rewrite (quoted_untouched "'" s).
  2:{ apply (all_chars_impl (inert is_word is_digit) _ s); [|exact H]. intros c Hc.
      destruct (Hparts c Hc) as (_ & _ & _ & E & _). now rewrite E. }
  rewrite (keyword_untouched (inert is_word is_digit) s).
  2:{ intros c Hc. destruct (Hparts c Hc) as (E & _).
      exact (starts_no_keyword_by is_word c keyword_heads_are_words E). }
  2:{ exact H. }
  apply number_untouched.
  apply (all_chars_impl (inert is_word is_digit) _ s); [|exact H].
  intros c Hc. destruct (Hparts c Hc) as (_ & E & _). now rewrite E.
Qed.

Lemma ascii_digit_facts (c : ascii) :
  Highlight.ascii_digit c = true -> is_digit c = true /\ is_word c = true.
Proof.
  intros H.
  assert (Hlt : nat_of_ascii c < 128).
  { unfold Highlight.ascii_digit in H. apply andb_true_iff in H. destruct H as [_ H].
    apply Nat.leb_le in H. lia. }
  rewrite (digit_ascii c Hlt), (word_ascii c Hlt). split; [exact H|].
  unfold Highlight.ascii_word. now rewrite H.
Qed.

Lemma digits_whole (ds : string) :
  ds <> "" -> all_chars Highlight.ascii_digit ds = true ->
  Highlight.digits_then_boundary is_word is_digit ds = Some (ds, "").
Proof.
  induction ds as [|c r IH]; intros Hne H; [contradiction|].
  cbn [all_chars] in H. apply andb_true_iff in H. destruct H as [Hc Hr].
  destruct (ascii_digit_facts c Hc) as [Hd Hw].
  cbn [Highlight.digits_then_boundary]. rewrite Hd.
  destruct r as [|c2 r2].
  - unfold Highlight.boundary. cbn. now rewrite Hw.
  - rewrite IH by (try discriminate; exact Hr). reflexivity.
Qed.

(** X11: a line that is one unsigned integer literal (ASCII digits only) is
    coloured as a whole, once: the output is the number colour, the digits,
    and the reset sequence. *)
Theorem integer_coloured (ds : string) :
  ds <> "" -> all_chars Highlight.ascii_digit ds = true ->
  Highlight.highlight_code_line is_word is_digit ds
  = Highlight.CYAN ++ ds ++ Highlight.RESET.
Proof.
  intros Hne H.
  assert (Hq : forall q, Highlight.ascii_digit q = false ->
                all_chars (fun c => negb (Ascii.eqb c q)) ds = true).
  { intros q Hq. apply (all_chars_impl Highlight.ascii_digit _ ds); [|exact H]. intros c Hc.
    apply negb_true_iff. destruct (Ascii.eqb_spec c q) as [->|]; [|reflexivity].
    rewrite Hq in Hc. discriminate Hc. }
  assert (Hh : contains_char "#" ds = false)
    by (apply (all_chars_absent Highlight.ascii_digit); [reflexivity | exact H]).
  unfold Highlight.highlight_code_line. rewrite Hh.
  unfold Highlight.highlight_code_text.
  rewrite (quoted_untouched dquote ds (Hq dquote eq_refl)).
  rewrite (quoted_untouched "'" ds (Hq "'"%char eq_refl)).
  rewrite (keyword_untouched Highlight.ascii_digit ds).
  2:{ intros c Hc.
      apply (starts_no_keyword_by (fun d => negb (Highlight.ascii_digit d)) c);
        [reflexivity | now rewrite Hc]. }
  2:{ exact H. }
  unfold Highlight.sub. destruct ds as [|c r]; [contradiction|].
  cbn [String.length Highlight.re_sub]. unfold Highlight.match_number.
  rewrite (digits_whole (String c r) Hne H).
  cbn [all_chars] in H. apply andb_true_iff in H. destruct H as [Hc _].
  destruct (ascii_digit_facts c Hc) as [_ Hw].
  unfold Highlight.boundary. cbn [Highlight.first_char]. rewrite Hw. cbn [xorb].
  do 2 f_equal. now destruct (String.length r).
Qed.

End Colours.

Lemma integer_coloured_witness :
  Highlight.highlight_code_line Highlight.ascii_word Highlight.ascii_digit "2024"
  = Highlight.CYAN ++ "2024" ++ Highlight.RESET.
Proof.
  apply (integer_coloured Highlight.ascii_word Highlight.ascii_digit
           (fun _ _ => eq_refl) (fun _ _ => eq_refl) "2024");
    [discriminate | reflexivity].
Defined.

Lemma inert_line_unchanged_witness :
  Highlight.highlight_code_line Highlight.ascii_word Highlight.ascii_digit
    "  ) + (]: "
  = "  ) + (]: ".
Proof.
  exact (inert_line_unchanged Highlight.ascii_word Highlight.ascii_digit
           (fun _ _ => eq_refl) "  ) + (]: " eq_refl).
Defined.

(** X12: everything from the first [#] of a line on is a comment for the
    highlighter: it is written out unchanged between the comment colour and
    the reset sequence, whatever quotes, keywords, digits or further [#] it
    holds, and only the text before that [#] goes through the colouring
    passes. *)
Theorem comment_verbatim (is_word is_digit : ascii -> bool)
  (code comment : string) :
  contains_char "#" code = false ->
  Highlight.highlight_code_line is_word is_digit (code ++ "#" ++ comment)
  = Highlight.highlight_code_text is_word is_digit code
    ++ Highlight.GRAY ++ "#" ++ comment ++ Highlight.RESET.
Proof.
  intros H. unfold Highlight.highlight_code_line.
  rewrite contains_char_app. cbn [append contains_char].
  rewrite Ascii.eqb_refl, orb_true_r.
  change (code ++ String "#" comment) with (code ++ String "#"%char comment).
  now rewrite (split_once_at "#" code comment H).
Qed.

Lemma comment_verbatim_witness :
  Highlight.highlight_code_line Highlight.ascii_word Highlight.ascii_digit
    "x = 1 # if 'a' # 2"
  = "x = " ++ Highlight.CYAN ++ "1" ++ Highlight.RESET ++ " "
    ++ Highlight.GRAY ++ "# if 'a' # 2" ++ Highlight.RESET.
Proof.
  exact (comment_verbatim Highlight.ascii_word Highlight.ascii_digit
           "x = 1 " " if 'a' # 2" eq_refl).
Defined.

(* ================================================================== *)
(** * Further properties of [:copy] and [:diff] *)

Lemma in_range_inside (blocks : list string) (n : Z) :
  (1 <= n <= Z.of_nat (List.length blocks))%Z ->
  Cmd.in_range blocks (n - 1) = true.
Proof.
  intros H. unfold Cmd.in_range. apply andb_true_iff.
  split; [apply Z.leb_le | apply Z.ltb_lt]; lia.
Qed.

Lemma in_range_nonempty (blocks : list string) (i : Z) (A : Type) (a b : A) :
  Cmd.in_range blocks i = true ->
  match blocks with [] => a | _ :: _ => b end = b.
Proof.
  destruct blocks; [|reflexivity]. unfold Cmd.in_range. cbn.
  intros H. apply andb_true_iff in H. destruct H as [H1 H2].
  apply Z.leb_le in H1. apply Z.ltb_lt in H2. lia.
Qed.

(** X13: with a block number [n] between 1 and the number of captured blocks,
    [:copy] and [:diff] take the [n]-th block in order of capture and report
    it under the number [n]; the session state is unchanged. *)
Theorem numbered_block_selected (int : string -> option Z) (w : Cmd.world)
  (s : Cmd.session) (arg : string) (n : Z) (more : list string)
  (fpath : string) :
  int arg = Some n ->
  (1 <= n <= Z.of_nat (List.length (Cmd.CODE_BLOCKS s)))%Z ->
  let block := nth (Z.to_nat n - 1) (Cmd.CODE_BLOCKS s) "" in
  Cmd.cmd_copy int w s (arg :: more)
  = (s, if Cmd.darwin w
        then if Cmd.pbcopy_ok w then Cmd.Handled (Cmd.Copied n block)
             else Cmd.CalledProcessError
        else Cmd.Handled Cmd.ClipboardUnsupported)
  /\ Cmd.cmd_diff int w s (fpath :: arg :: more)
     = (s, Cmd.Handled
             (if negb (Cmd.path_exists w fpath) then Cmd.FileNotFound fpath
              else match Cmd.read_text w fpath with
                   | Some text => Cmd.DiffShown fpath text n block
                   | None => Cmd.DiffError
                   end)).
Proof.
  intros Hi Hn block. pose proof (in_range_inside _ _ Hn) as Hr.
  assert (Hb : Cmd.item (Cmd.CODE_BLOCKS s) (n - 1) = block).
  { unfold Cmd.item, block. f_equal. lia. }
  unfold Cmd.cmd_copy, Cmd.cmd_diff. rewrite Hi.
  rewrite !(in_range_nonempty _ _ _ _ _ Hr), Hr, Hb.
  replace (n - 1 + 1)%Z with n by lia. split.
  - destruct (Cmd.darwin w); [|reflexivity]. now destruct (Cmd.pbcopy_ok w).
  - destruct (negb (Cmd.path_exists w fpath)); [reflexivity|].
    now destruct (Cmd.read_text w fpath).
Qed.

Lemma numbered_block_selected_witness :
  Cmd.cmd_copy Cmd.decimal (every_file "y") (sample_session ["a"; "b"; "c"]) ["2"]
  = (sample_session ["a"; "b"; "c"], Cmd.Handled (Cmd.Copied 2 "b")).
Proof.
  apply (proj1 (numbered_block_selected Cmd.decimal (every_file "y")
                  (sample_session ["a"; "b"; "c"]) "2" 2 [] "f.py" eq_refl
                  ltac:(cbn; lia))).
Defined.

(** X14: a negative block number never counts from the end of the list, as a
    Python index would: [:copy] and [:diff] select no block for it and leave
    the session state unchanged. *)
Theorem negative_block_number (int : string -> option Z) (w : Cmd.world)
  (s : Cmd.session) (arg : string) (n : Z) (more : list string)
  (fpath : string) :
  int arg = Some n ->
  (n < 0)%Z ->
  Cmd.cmd_copy int w s (arg :: more)
  = (s, Cmd.Handled
          (match Cmd.CODE_BLOCKS s with
           | [] => Cmd.NoBlocksFound
           | _ => Cmd.CopyNotFound arg (List.length (Cmd.CODE_BLOCKS s))
           end))
  /\ Cmd.cmd_diff int w s (fpath :: arg :: more)
     = (s, Cmd.Handled
             (if negb (Cmd.path_exists w fpath) then Cmd.FileNotFound fpath
              else match Cmd.CODE_BLOCKS s with
                   | [] => Cmd.NoBlocksToDiff
                   | _ => Cmd.BlockNotFound n
                   end)).
Proof.
  intros Hi Hn.
  assert (Hr : Cmd.in_range (Cmd.CODE_BLOCKS s) (n - 1) = false).
  { unfold Cmd.in_range. apply andb_false_iff. left. apply Z.leb_gt. lia. }
  unfold Cmd.cmd_copy, Cmd.cmd_diff. rewrite Hi.
  destruct (Cmd.CODE_BLOCKS s) as [|b bs] eqn:Eb.
  - split; [reflexivity|]. now destruct (negb (Cmd.path_exists w fpath)).
  - rewrite Hr. split; [reflexivity|].
    destruct (negb (Cmd.path_exists w fpath)); [reflexivity|].
    now replace (n - 1 + 1)%Z with n by lia.
Qed.

Lemma negative_block_number_witness :
  Cmd.cmd_copy (fun _ => Some (-1)%Z) (every_file "y")
    (sample_session ["a"; "b"]) ["-1"]
  = (sample_session ["a"; "b"], Cmd.Handled (Cmd.CopyNotFound "-1" 2)).
Proof.
  apply (proj1 (negative_block_number (fun _ => Some (-1)%Z) (every_file "y")
                  (sample_session ["a"; "b"]) "-1" (-1) [] "f.py" eq_refl
                  ltac:(lia))).
Defined.

(** X15: a block number that is not an integer is handled differently by
    the two commands.  [:copy] catches the [ValueError] and prints its usage
    line (after the check for an empty list).  [:diff] converts the number
    before it looks at the file or at the list, so the [ValueError] leaves
    [handle_command] even when the file is missing or no block was captured.
    The session state is unchanged either way. *)
Theorem bad_block_number (int : string -> option Z) (w : Cmd.world)
  (s : Cmd.session) (arg : string) (more : list string) (fpath : string) :
  int arg = None ->
  Cmd.cmd_copy int w s (arg :: more)
  = (s, Cmd.Handled (match Cmd.CODE_BLOCKS s with
                     | [] => Cmd.NoBlocksFound
                     | _ => Cmd.CopyUsage
                     end))
  /\ Cmd.cmd_diff int w s (fpath :: arg :: more) = (s, Cmd.ValueError).
Proof.
  intros Hi. unfold Cmd.cmd_copy, Cmd.cmd_diff. rewrite Hi.
  split; [|reflexivity]. now destruct (Cmd.CODE_BLOCKS s).
Qed.

Lemma bad_block_number_witness :
  Cmd.cmd_diff Cmd.decimal no_files (sample_session []) ["missing.txt"; "two"]
  = (sample_session [], Cmd.ValueError).
Proof.
  apply (proj2 (bad_block_number Cmd.decimal no_files (sample_session [])
                  "two" [] "missing.txt" eq_refl)).
Defined.

(* ================================================================== *)
(** * Properties of the system prompt and of the commands that rebuild it *)

Lemma dict_item_key_error (d : list (string * string)) (key : string) (e : exn) :
  Session.dict_item d key = inr e -> e = KeyError.
Proof.
  induction d as [|[k v] d IH]; cbn.
  - intros H. now inversion H.
  - destruct (String.eqb k key); [discriminate | exact IH].
Qed.

Lemma dict_item_missing (d : list (string * string)) (key : string) :
  Session.has_key d key = false -> Session.dict_item d key = inr KeyError.
Proof.
  induction d as [|[k v] d IH]; cbn; [reflexivity|].
  destruct (String.eqb k key); cbn; [discriminate | exact IH].
Qed.

Lemma reset_and_return_true (base : string) (s s' : Cmd.session) :
  Session.reset_and_return base s = (s', Session.ReturnedTrue) ->
  exists p, s' = Session.with_messages [("system", p)] s.
Proof.
  unfold Session.reset_and_return, Session.reset_context.
  destruct (Session.system_prompt base s) as [p|e]; intros H; inversion H.
  now exists p.
Qed.

(** X16: every command that rebuilds the system prompt ([:lab], [:recon],
    [:defence], [:exploit], [:normal], [:phase], [:depth], [:format],
    [:reset]) throws the conversation away when it succeeds: the history is
    then the single system message, whatever it held before, while the
    captured code blocks, the memory and the engagement stay. *)
Theorem prompt_commands_restart_history (base : string) (s s' : Cmd.session)
  (v : string) :
  Session.cmd_mode base v s = (s', Session.ReturnedTrue)
  \/ Session.cmd_phase base v s = (s', Session.ReturnedTrue)
  \/ Session.cmd_depth base v s = (s', Session.ReturnedTrue)
  \/ Session.cmd_format base v s = (s', Session.ReturnedTrue)
  \/ Session.cmd_reset base s = (s', Session.ReturnedTrue) ->
  (exists p, Cmd.messages s' = [("system", p)])
  /\ Cmd.CODE_BLOCKS s' = Cmd.CODE_BLOCKS s
  /\ Cmd.MEMORY s' = Cmd.MEMORY s
  /\ Cmd.ENGAGEMENT s' = Cmd.ENGAGEMENT s.
Proof.
  unfold Session.cmd_mode, Session.cmd_phase, Session.cmd_depth,
    Session.cmd_format, Session.cmd_reset.
  intros [H|[H|[H|[H|H]]]]; apply reset_and_return_true in H;
    destruct H as [p ->]; (split; [now exists p|]);
    try (destruct (String.eqb v "exploit"), (String.eqb v "normal"));
    repeat split.
Qed.

Lemma prompt_commands_restart_history_witness :
  exists p,
    Cmd.messages
      (fst (Session.cmd_mode "base" "exploit"
              (Cmd.mkSession "lab" "recon" "normal" "raw" "default" []
                 [("system", "old"); ("user", "hello"); ("assistant", "hi")]
                 ["x"])))
    = [("system", p)].
Proof.
  destruct (prompt_commands_restart_history "base"
              (Cmd.mkSession "lab" "recon" "normal" "raw" "default" []
                 [("system", "old"); ("user", "hello"); ("assistant", "hi")]
                 ["x"])
              _ "exploit" (or_introl eq_refl)) as [H _].
  exact H.
Defined.

(** X17: [:phase], [:depth] and [:format] store their argument before the
    prompt is rebuilt and do not check it.  With a phase that has no entry in
    [PHASE_PROMPTS] the command raises [KeyError] with the phase already
    stored and the history untouched, and from then on every rebuild of the
    prompt on a state with that phase raises [KeyError] again and changes
    nothing. *)
Theorem unknown_phase_sticks (base : string) (s : Cmd.session) (v : string) :
  Session.has_key Session.PHASE_PROMPTS v = false ->
  Session.cmd_phase base v s
  = (Session.with_phase v s, Session.Raising KeyError)
  /\ (forall s2, Cmd.PHASE s2 = v ->
        Session.reset_context base s2 = (s2, Some KeyError)
        /\ Session.cmd_reset base s2 = (s2, Session.Raising KeyError)
        /\ forall d, Session.cmd_depth base d s2
                     = (Session.with_depth d s2, Session.Raising KeyError)).
Proof.
  intros Hv.
  assert (R : forall s2, Cmd.PHASE s2 = v ->
                Session.reset_context base s2 = (s2, Some KeyError)).
  { intros s2 Hp. unfold Session.reset_context, Session.system_prompt.
    destruct (Session.dict_item Session.MODE_PROMPTS (Cmd.SEC_MODE s2)) as [m|e] eqn:Em.
    - cbn [bind]. rewrite Hp, (dict_item_missing _ _ Hv). reflexivity.
    - cbn [bind]. now rewrite (dict_item_key_error _ _ _ Em). }
  split.
  - unfold Session.cmd_phase, Session.reset_and_return. now rewrite R.
  - intros s2 Hp. repeat split.
    + now apply R.
    + unfold Session.cmd_reset, Session.reset_and_return. now rewrite R.
    + intros d. unfold Session.cmd_depth, Session.reset_and_return.
      now rewrite R by (destruct s2; exact Hp).
Qed.

Lemma unknown_phase_sticks_witness :
  Session.cmd_phase "base" "pivot" (sample_session [])
  = (Session.with_phase "pivot" (sample_session []), Session.Raising KeyError).
Proof.
  exact (proj1 (unknown_phase_sticks "base" (sample_session []) "pivot" eq_refl)).
Defined.

(* ================================================================== *)
(** * Properties of the session loop *)

Lemma prefix_char (a : ascii) (s : string) :
  String.prefix (String a "") s = true -> exists r, s = String a r.
Proof.
  destruct s as [|c r]; cbn; [discriminate|].
  destruct (ascii_dec a c) as [<-|]; [eauto | discriminate].
Qed.

Section Rounds.

Variable strip : string -> string.
Variable handle_command : Cmd.session -> string -> Cmd.session * Session.ended.
Variable complete : nat -> list Session.message -> Loop.reply.

Lemma continue_kept_requests (budget : nat) :
  forall call messages reason reqs,
    List.length (snd (Loop.continue_kept complete budget call messages reason reqs))
    <= List.length reqs + budget.
Proof.
  induction budget as [|budget IH]; intros call messages reason reqs;
    cbn [Loop.continue_kept snd]; [lia|].
  destruct (Loop.is_length reason); cbn [snd]; [|lia].
  destruct (complete call (snoc messages Session.cont_msg)) as [chunk r|].
  - etransitivity; [apply IH|]. unfold snoc. rewrite length_app. cbn. lia.
  - cbn [snd]. unfold snoc. rewrite length_app. cbn. lia.
Qed.

Lemma continue_ephemeral_requests (budget : nat) :
  forall call to_send content reason reqs,
    List.length (Loop.continue_ephemeral complete budget call to_send content reason reqs)
    <= List.length reqs + budget.
Proof.
  induction budget as [|budget IH]; intros call to_send content reason reqs;
    cbn [Loop.continue_ephemeral]; [lia|].
  destruct (Loop.is_length reason); [|lia].
  destruct (complete call _) as [chunk r|].
  - etransitivity; [apply IH|]. unfold snoc. rewrite length_app. cbn. lia.
  - unfold snoc. rewrite length_app. cbn. lia.
Qed.

(** X19: one prompt causes at most three calls of [stream_completion]: the
    first request and at most [AUTO_CONTINUE_LIMIT] automatic continuations,
    however often the model stops for length. *)
Theorem at_most_three_requests (s : Cmd.session) (prompt_text : string) :
  List.length
    (Loop.requests (Loop.round_of strip handle_command complete s prompt_text))
  <= 1 + Loop.AUTO_CONTINUE_LIMIT.
Proof.
  unfold Loop.round_of.
  destruct (negb (nonempty prompt_text)); [cbn; lia|].
  destruct (existsb _ _); [cbn; lia|].
  destruct (String.prefix ":" prompt_text); [cbn; lia|].
  destruct (nonempty _).
  - destruct (complete 0 _) as [c r|]; cbn [Loop.requests]; [|cbn; lia].
    etransitivity; [apply continue_ephemeral_requests|]. cbn. lia.
  - destruct (complete 0 _) as [c r|]; cbn [Loop.requests]; [|cbn; lia].
    pose proof (continue_kept_requests Loop.AUTO_CONTINUE_LIMIT 1
                  (snoc (if String.prefix "!" prompt_text
                         then Cmd.messages s
                         else snoc (Cmd.messages s) ("user", prompt_text))
                        ("assistant", c)) r
                  [if String.prefix "!" prompt_text
                   then Cmd.messages s
                   else snoc (Cmd.messages s) ("user", prompt_text)]) as B.
    destruct (Loop.continue_kept _ _ _ _ _ _) as [m' reqs].
    cbn [Loop.requests snd] in *. cbn in B. cbn. lia.
Qed.

(** X20: an ephemeral prompt ([!] followed by text) never changes the
    history, whatever the model answers and however many continuations
    follow; the first request is the history with the text added as a user
    message. *)
Theorem ephemeral_leaves_history (s : Cmd.session) (prompt_text : string) :
  String.prefix "!" prompt_text = true ->
  nonempty (strip (skip 1 prompt_text)) = true ->
  let r := Loop.round_of strip handle_command complete s prompt_text in
  Loop.history r = Cmd.messages s
  /\ hd_error (Loop.requests r)
     = Some (Cmd.messages s ++ [("user", strip (skip 1 prompt_text))])%list.
Proof.
  intros Hb He. unfold Loop.round_of.
  assert (Hn : nonempty prompt_text = true)
    by (destruct prompt_text; [discriminate Hb | reflexivity]).
  assert (Hx : existsb (String.eqb prompt_text) [":q"; "quit"; "exit"] = false
               /\ String.prefix ":" prompt_text = false).
  { destruct (prefix_char _ _ Hb) as [r ->]. split; reflexivity. }
  destruct Hx as [Hx Hc].
  rewrite Hn, Hx, Hc, Hb, He. cbn [negb].
  destruct (complete 0 _) as [c r|]; cbn [Loop.history Loop.requests];
    [|split; reflexivity].
  split; [reflexivity|].
  assert (G : forall budget call to_send content reason reqs,
             hd_error (Loop.continue_ephemeral complete budget call to_send
                         content reason reqs)
             = hd_error reqs \/ reqs = []).
  { induction budget as [|budget IH]; intros call to_send content reason reqs;
      cbn [Loop.continue_ephemeral]; [now left|].
    destruct (Loop.is_length reason); [|now left].
    destruct reqs as [|q reqs]; [now right|]. left.
    destruct (complete call _) as [chunk r'|]; [|reflexivity].
    destruct (IH (S call)
                (snoc (snoc (snoc to_send ("assistant", content)) Session.cont_msg)
                      ("assistant", chunk)) chunk r'
                (snoc (q :: reqs)
                      (snoc (snoc to_send ("assistant", content)) Session.cont_msg)))
      as [E|E]; [exact E | discriminate E]. }
  destruct (G Loop.AUTO_CONTINUE_LIMIT 1
              (snoc (Cmd.messages s) ("user", strip (skip 1 prompt_text))) c r
              [snoc (Cmd.messages s) ("user", strip (skip 1 prompt_text))])
    as [E|E]; [exact E | discriminate E].
Qed.

(** X21: an ordinary prompt answered without a length stop adds exactly two
    messages to the history, the prompt as a user message and the answer as
    an assistant message, and sends a single request: the history with the
    prompt. *)
Theorem plain_round (s : Cmd.session) (prompt_text content : string)
  (reason : json) :
  nonempty prompt_text = true ->
  existsb (String.eqb prompt_text) [":q"; "quit"; "exit"] = false ->
  String.prefix ":" prompt_text = false ->
  String.prefix "!" prompt_text = false ->
  complete 0 (Cmd.messages s ++ [("user", prompt_text)]) = Loop.Reply content reason ->
  Loop.is_length reason = false ->
  Loop.round_of strip handle_command complete s prompt_text
  = Loop.mkRound
      (Cmd.messages s ++ [("user", prompt_text); ("assistant", content)])
      [Cmd.messages s ++ [("user", prompt_text)]]%list
      false.
Proof.
  intros Hn Hx Hc Hb Hr Hl. unfold Loop.round_of.
  rewrite Hn, Hx, Hc, Hb. cbn [negb nonempty]. unfold snoc at 1 2. rewrite Hr.
  cbn [Loop.AUTO_CONTINUE_LIMIT Loop.continue_kept]. rewrite Hl.
  unfold snoc. now rewrite <- app_assoc.
Qed.

(** X22: when the call for an ordinary prompt raises, the prompt stays in
    the history as a user message with no answer after it. *)
Theorem crash_keeps_prompt (s : Cmd.session) (prompt_text : string) :
  nonempty prompt_text = true ->
  existsb (String.eqb prompt_text) [":q"; "quit"; "exit"] = false ->
  String.prefix ":" prompt_text = false ->
  String.prefix "!" prompt_text = false ->
  complete 0 (Cmd.messages s ++ [("user", prompt_text)]) = Loop.Crash ->
  Loop.round_of strip handle_command complete s prompt_text
  = Loop.mkRound (Cmd.messages s ++ [("user", prompt_text)])
                 [Cmd.messages s ++ [("user", prompt_text)]]%list false.
Proof.
  intros Hn Hx Hc Hb Hr. unfold Loop.round_of.
  rewrite Hn, Hx, Hc, Hb. cbn [negb nonempty]. unfold snoc at 1. now rewrite Hr.
Qed.

(** X23: a [!] with nothing after it is not ephemeral: the history is sent
    as it is and the answer is added to it as an assistant message, with no
    user message before it. *)
Theorem bare_bang_records_answer (s : Cmd.session) (prompt_text content : string)
  (reason : json) :
  String.prefix "!" prompt_text = true ->
  strip (skip 1 prompt_text) = "" ->
  complete 0 (Cmd.messages s) = Loop.Reply content reason ->
  Loop.is_length reason = false ->
  Loop.round_of strip handle_command complete s prompt_text
  = Loop.mkRound (Cmd.messages s ++ [("assistant", content)])
                 [Cmd.messages s] false.
Proof.
  intros Hb He Hr Hl. unfold Loop.round_of.
  assert (Hn : nonempty prompt_text = true)
    by (destruct prompt_text; [discriminate Hb | reflexivity]).
  assert (Hx : existsb (String.eqb prompt_text) [":q"; "quit"; "exit"] = false
               /\ String.prefix ":" prompt_text = false).
  { destruct (prefix_char _ _ Hb) as [r ->]. split; reflexivity. }
  destruct Hx as [Hx Hc].
  rewrite Hn, Hx, Hc, Hb, He. cbn [negb nonempty]. rewrite Hr.
  cbn [Loop.AUTO_CONTINUE_LIMIT Loop.continue_kept]. now rewrite Hl.
Qed.

(** X24: in an ephemeral round with two automatic continuations, the second
    continuation request holds the first continuation's text twice in a row:
    once added after the call and once more at the top of the next round of
    the loop. *)
Theorem ephemeral_second_continuation (s : Cmd.session)
  (prompt_text c0 c1 : string) (r0 r1 : json) :
  String.prefix "!" prompt_text = true ->
  nonempty (strip (skip 1 prompt_text)) = true ->
  let e := ("user", strip (skip 1 prompt_text)) in
  let first := (Cmd.messages s ++ [e])%list in
  let second := (first ++ [("assistant", c0); Session.cont_msg])%list in
  let third :=
    (second ++ [("assistant", c1); ("assistant", c1); Session.cont_msg])%list in
  complete 0 first = Loop.Reply c0 r0 -> Loop.is_length r0 = true ->
  complete 1 second = Loop.Reply c1 r1 -> Loop.is_length r1 = true ->
  Loop.requests (Loop.round_of strip handle_command complete s prompt_text)
  = [first; second; third].
Proof.
  intros Hb He e first second third H0 L0 H1 L1. unfold Loop.round_of.
  assert (Hn : nonempty prompt_text = true)
    by (destruct prompt_text; [discriminate Hb | reflexivity]).
  assert (Hx : existsb (String.eqb prompt_text) [":q"; "quit"; "exit"] = false
               /\ String.prefix ":" prompt_text = false).
  { destruct (prefix_char _ _ Hb) as [r ->]. split; reflexivity. }
  destruct Hx as [Hx Hc].
  rewrite Hn, Hx, Hc, Hb, He. cbn [negb].
  assert (E1 : snoc (Cmd.messages s) ("user", strip (skip 1 prompt_text)) = first)
    by reflexivity.
  rewrite E1, H0.
  cbn [Loop.requests Loop.AUTO_CONTINUE_LIMIT Loop.continue_ephemeral].
  rewrite L0.
  assert (E2 : @snoc Session.message
                 (@snoc Session.message first ("assistant", c0)) Session.cont_msg
               = second).
  { unfold snoc, second. now rewrite <- app_assoc. }
  rewrite E2, H1, L1.
  assert (E3 : @snoc Session.message
                 (@snoc Session.message
                    (@snoc Session.message second ("assistant", c1))
                    ("assistant", c1))
                 Session.cont_msg = third).
  { unfold snoc, third. now rewrite <- !app_assoc. }
  rewrite E3. now destruct (complete 2 third).
Qed.

End Rounds.

Lemma ephemeral_leaves_history_witness :
  Loop.history (Loop.round_of no_strip only_continue answers_cut talking "!decode this")
  = [("system", "prompt"); ("user", "hello")].
Proof.
  exact (proj1 (ephemeral_leaves_history no_strip only_continue answers_cut
                  talking "!decode this" eq_refl eq_refl)).
Defined.

Lemma plain_round_witness :
  Loop.round_of no_strip only_continue answers_ok talking "scan the host"
  = Loop.mkRound
      [("system", "prompt"); ("user", "hello"); ("user", "scan the host");
       ("assistant", "ok")]
      [[("system", "prompt"); ("user", "hello"); ("user", "scan the host")]]
      false.
Proof.
  exact (plain_round no_strip only_continue answers_ok talking "scan the host"
           "ok" (JStr "stop") eq_refl eq_refl eq_refl eq_refl eq_refl eq_refl).
Defined.

Lemma crash_keeps_prompt_witness :
  Loop.history (Loop.round_of no_strip only_continue answers_crash talking "scan")
  = [("system", "prompt"); ("user", "hello"); ("user", "scan")].
Proof.
  rewrite (crash_keeps_prompt no_strip only_continue answers_crash talking "scan"
             eq_refl eq_refl eq_refl eq_refl eq_refl).
  reflexivity.
Defined.

Lemma bare_bang_records_answer_witness :
  Loop.history (Loop.round_of no_strip only_continue answers_ok talking "!")
  = [("system", "prompt"); ("user", "hello"); ("assistant", "ok")].
Proof.
  rewrite (bare_bang_records_answer no_strip only_continue answers_ok talking "!"
             "ok" (JStr "stop") eq_refl eq_refl eq_refl eq_refl).
  reflexivity.
Defined.

Lemma ephemeral_second_continuation_witness :
  nth_error
    (Loop.requests (Loop.round_of no_strip only_continue answers_cut talking "!go"))
    2
  = Some [("system", "prompt"); ("user", "hello"); ("user", "go");
          ("assistant", "cut"); Session.cont_msg;
          ("assistant", "cut"); ("assistant", "cut"); Session.cont_msg].
Proof.
  rewrite (ephemeral_second_continuation no_strip only_continue answers_cut
             talking "!go" "cut" "cut" (JStr "length") (JStr "length")
             eq_refl eq_refl eq_refl eq_refl eq_refl eq_refl).
  reflexivity.
Defined.

(* ================================================================== *)
(** * Properties of [:compress] *)

(** X25: [:compress] leaves a history of fewer than five messages as it is.
    On a longer history it asks for a summary of everything but the first
    message and the last two, and on success the history is exactly four
    messages: the first one, the summary as a system message, and the last
    two; nothing else of the session changes. *)
Theorem compress_keeps_ends (summarize : list Session.message -> option string)
  (s : Cmd.session) :
  ((List.length (Cmd.messages s) < 5)%nat ->
     Compress.cmd_compress summarize s = (s, Session.ReturnedTrue))
  /\ (forall first middle a b summary,
        Cmd.messages s = (first :: middle ++ [a; b])%list ->
        (2 <= List.length middle)%nat ->
        summarize middle = Some summary ->
        Compress.cmd_compress summarize s
        = (Session.with_messages
             [first; Compress.summary_msg summary; a; b] s,
           Session.ReturnedTrue)).
Proof.
  split.
  - intros H. unfold Compress.cmd_compress.
    apply Nat.ltb_lt in H. now rewrite H.
  - intros first middle a b summary Hm Hl Hs. unfold Compress.cmd_compress.
    rewrite Hm.
    assert (Hn : List.length (first :: middle ++ [a; b]) = List.length middle + 3).
    { cbn [List.length]. rewrite length_app. cbn. lia. }
    rewrite Hn.
    assert (Hlt : (List.length middle + 3 <? 5)%nat = false)
      by (apply Nat.ltb_ge; lia).
    rewrite Hlt.
    replace (List.length middle + 3 - 3) with (List.length middle) by lia.
    replace (List.length middle + 3 - 2) with (S (List.length middle)) by lia.
    cbn [skipn firstn].
    rewrite firstn_app, Nat.sub_diag, firstn_all. cbn [firstn]. rewrite app_nil_r.
    rewrite Hs. rewrite skipn_app, skipn_all, Nat.sub_diag. reflexivity.
Qed.

Lemma compress_keeps_ends_witness :
  Cmd.messages
    (fst (Compress.cmd_compress (fun _ => Some "summary")
            (Cmd.mkSession "lab" "recon" "normal" "raw" "default" []
               [("system", "p"); ("user", "a"); ("assistant", "b");
                ("user", "c"); ("assistant", "d")] [])))
  = [("system", "p"); Compress.summary_msg "summary";
     ("user", "c"); ("assistant", "d")].
Proof.
  rewrite (proj2 (compress_keeps_ends (fun _ => Some "summary")
                    (Cmd.mkSession "lab" "recon" "normal" "raw" "default" []
                       [("system", "p"); ("user", "a"); ("assistant", "b");
                        ("user", "c"); ("assistant", "d")] []))
             ("system", "p") [("user", "a"); ("assistant", "b")]
             ("user", "c") ("assistant", "d") "summary"
             eq_refl ltac:(cbn; lia) eq_refl).
  reflexivity.
Defined.

Lemma begins_more (ms q extra : list Session.message) :
  begins ms q -> begins (ms ++ extra) q.
Proof. intros [rest ->]. exists (rest ++ extra)%list. now rewrite app_assoc. Qed.

Lemma continue_kept_appends
  (complete : nat -> list Session.message -> Loop.reply) (budget : nat) :
  forall call messages reason reqs,
    Forall (begins messages) reqs ->
    begins (fst (Loop.continue_kept complete budget call messages reason reqs))
           messages
    /\ Forall (begins (fst (Loop.continue_kept complete budget call messages
                              reason reqs)))
              (snd (Loop.continue_kept complete budget call messages reason reqs)).
Proof.
  assert (Self : forall ms : list Session.message, begins ms ms).
  { intros ms. exists []. now rewrite app_nil_r. }
  induction budget as [|budget IH]; intros call messages reason reqs H;
    cbn [Loop.continue_kept].
  - cbn [fst snd]. auto.
  - destruct (Loop.is_length reason); [|cbn [fst snd]; auto].
    assert (H1 : Forall (begins (snoc messages Session.cont_msg))
                        (snoc reqs (snoc messages Session.cont_msg))).
    { unfold snoc at 2. apply Forall_app. split.
      - eapply Forall_impl; [|exact H]. intros q Hq. now apply begins_more.
      - constructor; [apply Self | constructor]. }
    destruct (complete call (snoc messages Session.cont_msg)) as [chunk r|].
    + assert (H2 : Forall (begins (snoc (snoc messages Session.cont_msg)
                                        ("assistant", chunk)))
                          (snoc reqs (snoc messages Session.cont_msg))).
      { eapply Forall_impl; [|exact H1]. intros q Hq. now apply begins_more. }
      destruct (IH (S call) _ r _ H2) as [B F]. split; [|exact F].
      destruct B as [rest E]. rewrite E. unfold snoc.
      exists ([Session.cont_msg] ++ [("assistant", chunk)] ++ rest)%list.
      now rewrite !app_assoc.
    + cbn [fst snd]. split; [|exact H1]. now exists [Session.cont_msg].
Qed.

(** X26: a round for an ordinary prompt only adds to the history: the new
    history begins with the old one followed by the prompt as a user message,
    and every request sent in the round is a beginning of the new history
    (each call sees the conversation as recorded up to that point). *)
Theorem ordinary_round_appends (strip : string -> string)
  (handle_command : Cmd.session -> string -> Cmd.session * Session.ended)
  (complete : nat -> list Session.message -> Loop.reply)
  (s : Cmd.session) (prompt_text : string) :
  nonempty prompt_text = true ->
  existsb (String.eqb prompt_text) [":q"; "quit"; "exit"] = false ->
  String.prefix ":" prompt_text = false ->
  String.prefix "!" prompt_text = false ->
  let r := Loop.round_of strip handle_command complete s prompt_text in
  begins (Loop.history r) (Cmd.messages s ++ [("user", prompt_text)])
  /\ Forall (begins (Loop.history r)) (Loop.requests r).
Proof.
  intros Hn Hx Hc Hb. unfold Loop.round_of.
  rewrite Hn, Hx, Hc, Hb. cbn [negb nonempty].
  assert (Self : forall ms : list Session.message, begins ms ms).
  { intros ms. exists []. now rewrite app_nil_r. }
  fold (snoc (Cmd.messages s) ("user", prompt_text)).
  destruct (complete 0 (snoc (Cmd.messages s) ("user", prompt_text))) as [c reason|].
  - pose proof (continue_kept_appends complete Loop.AUTO_CONTINUE_LIMIT 1
                  (snoc (snoc (Cmd.messages s) ("user", prompt_text)) ("assistant", c))
                  reason [snoc (Cmd.messages s) ("user", prompt_text)]) as K.
    destruct (Loop.continue_kept _ _ _ _ _ _) as [m' reqs].
    cbn [fst snd Loop.history Loop.requests] in *.
    destruct K as [[rest E] F].
    + constructor; [|constructor]. now exists [("assistant", c)].
    + split; [|exact F]. rewrite E. unfold snoc. exists (("assistant", c) :: rest).
      now rewrite <- app_assoc.
  - cbn [Loop.history Loop.requests]. split; [apply Self|].
    constructor; [apply Self | constructor].
Qed.

Lemma ordinary_round_appends_witness :
  begins
    (Loop.history (Loop.round_of no_strip only_continue answers_cut talking "scan"))
    [("system", "prompt"); ("user", "hello"); ("user", "scan")].
Proof.
  exact (proj1 (ordinary_round_appends no_strip only_continue answers_cut talking
                  "scan" eq_refl eq_refl eq_refl eq_refl)).
Defined.
